(** * inprod: production-readiness analysis, altitude model, fix selection
      and rate limiting

    Shallow embedding of
    - [lib/inprod/types.ts]        (categories, platforms, gaps, analyses),
    - [docs/altitude-system.md]    ([calculateAltitude], [usersToAltitude]),
    - [app/api/generate/route.ts]  (gap selection and grouping in [POST]),
    - [lib/rate-limit.ts]          ([rateLimit]).

    JavaScript numbers that hold counts, scores and user ceilings are
    integers ([Z]); the rate-limit window is an exact rational ([Q]).
    [calculateAltitude] computes the average score and the health
    multiplier in exact rational arithmetic; [calculateAltitude_binary64]
    is the same function with every floating-point operation of the
    source (the additions of the scores, two divisions and a product)
    rounded to IEEE 754 binary64 by [round64], and is the one used
    wherever the exact value of the effective users matters. *)

From Stdlib Require Import ZArith QArith Qround Qpower List Sorted Permutation String Ascii Bool Lia Lqa.
From Stdlib Require Import DecimalString.
From Stdlib Require Import Floats.
Import ListNotations.
Local Open Scope Z_scope.

(* ===================================================================== *)
(** ** lib/inprod/types.ts *)
(* ===================================================================== *)

Inductive Category : Type :=
  | frontend
  | backend
  | database
  | authentication
  | apiIntegrations
  | stateManagement
  | designUx
  | testing
  | security
  | errorHandling
  | versionControl
  | deployment.

Definition CATEGORIES : list Category :=
  [ frontend; backend; database; authentication; apiIntegrations;
    stateManagement; designUx; testing; security; errorHandling;
    versionControl; deployment ].

Definition Category_eq_dec (a b : Category) : {a = b} + {a <> b}.
Proof. decide equality. Defined.

Definition Category_eqb (a b : Category) : bool :=
  if Category_eq_dec a b then true else false.

(** Position of a category in [CATEGORIES] (the declaration order). *)
Definition category_index (c : Category) : nat :=
  match c with
  | frontend => 0 | backend => 1 | database => 2 | authentication => 3
  | apiIntegrations => 4 | stateManagement => 5 | designUx => 6
  | testing => 7 | security => 8 | errorHandling => 9
  | versionControl => 10 | deployment => 11
  end%nat.

Definition CATEGORY_LABELS (c : Category) : string :=
  match c with
  | frontend => "Frontend"
  | backend => "Backend"
  | database => "Database"
  | authentication => "Authentication"
  | apiIntegrations => "API Integrations"
  | stateManagement => "State Management"
  | designUx => "Design/UX"
  | testing => "Testing"
  | security => "Security"
  | errorHandling => "Error Handling"
  | versionControl => "Version Control"
  | deployment => "Deployment"
  end%string.

Module Platform.
Inductive t : Type := web | ios | android | backend | cli | library | monorepo.
End Platform.

(** Which categories apply to which platform types. *)
Definition PLATFORM_CATEGORIES (p : Platform.t) : list Category :=
  match p with
  | Platform.web =>
      [ frontend; backend; database; authentication; apiIntegrations;
        stateManagement; designUx; testing; security; errorHandling;
        versionControl; deployment ]
  | Platform.ios =>
      [ designUx; testing; security; errorHandling; versionControl;
        deployment; stateManagement ]
  | Platform.android =>
      [ designUx; testing; security; errorHandling; versionControl;
        deployment; stateManagement ]
  | Platform.backend =>
      [ backend; database; authentication; apiIntegrations; testing;
        security; errorHandling; versionControl; deployment ]
  | Platform.cli =>
      [ testing; security; errorHandling; versionControl; deployment ]
  | Platform.library =>
      [ testing; security; versionControl ]
  | Platform.monorepo =>
      [ frontend; backend; database; authentication; apiIntegrations;
        stateManagement; designUx; testing; security; errorHandling;
        versionControl; deployment ]
  end.

Inductive Severity : Type := blocker | critical | warning | info.
Inductive Confidence : Type := proven | verified | high | likely | possible.
Inductive FixType : Type := instant | suggested | guided.

Definition FixType_eqb (a b : FixType) : bool :=
  match a, b with
  | instant, instant | suggested, suggested | guided, guided => true
  | _, _ => false
  end.

Module Gap.
Record t : Type := mk {
  id : string;
  category : Category;
  title : string;
  description : string;
  severity : Severity;
  confidence : Confidence;
  file : option string;
  line : option Z;
  fixType : FixType;
  fixTemplate : option string;
  effortMinutes : option Z
}.
End Gap.

Module CategoryScore.
Record t : Type := mk {
  category : Category;
  label : string;
  score : Z;                   (* 0-100 *)
  detected : list string;      (* what was detected *)
  gaps : list Gap.t;           (* what's missing *)
  canGenerate : bool           (* can we generate fixes? *)
}.
End CategoryScore.

Inductive MaturityLevel : Type := prototype | mvp | production.

Module TechStack.
Record t : Type := mk {
  platform : Platform.t;
  languages : list string;
  frameworks : list string;
  packageManager : option string;
  database : option string;
  testFramework : option string;
  ciProvider : option string;
  deploymentPlatform : option string;
  maturityLevel : MaturityLevel
}.
End TechStack.

Module CompletenessAnalysis.
Record t : Type := mk {
  repoUrl : string;
  techStack : TechStack.t;
  overallScore : Z;            (* 0-100 *)
  categories : list CategoryScore.t;
  totalGaps : Z;
  blockerCount : Z;
  criticalCount : Z;
  warningCount : Z;
  estimatedFixMinutes : Z;
  canAutoFix : Z               (* number of gaps that can be auto-fixed *)
}.
End CompletenessAnalysis.

Module RepoFile.
Record t : Type := mk {
  path : string;
  content : string;
  size : Z
}.
End RepoFile.

(* ===================================================================== *)
(** ** JavaScript built-ins used by the sources *)
(* ===================================================================== *)

(** [Math.floor], [Math.ceil] and [Math.round] (round half up). *)
Definition Math_floor (x : Q) : Z := Qfloor x.
Definition Math_ceil (x : Q) : Z := Qceiling x.
Definition Math_round (x : Q) : Z := Qfloor (x + (1 # 2)).

(** IEEE 754 binary64 (the JavaScript number type), round to nearest with
    ties to even, on the rationals: a non-zero [x] is scaled by a power of
    two to a significand in [2^52, 2^53), the significand is rounded to an
    integer, and the scaling is undone.  Overflow and subnormal numbers
    are outside the model; no quantity of [calculateAltitude] reaches
    them. *)
Definition round_half_even (x : Q) : Z :=
  let f := Qfloor x in
  match (x - inject_Z f ?= 1 # 2)%Q with
  | Lt => f
  | Gt => f + 1
  | Eq => if Z.even f then f else f + 1
  end.

(** The exponent [e] with [2^(e+52) <= x < 2^(e+53)], for [x > 0]. *)
Definition exponent64 (x : Q) : Z :=
  let k := Z.log2 (Qnum x) - Z.log2 (Zpos (Qden x)) in
  if Qle_bool (2 ^ k)%Q x then k - 52 else k - 53.

Definition round64 (x : Q) : Q :=
  match (x ?= 0)%Q with
  | Eq => 0%Q
  | Gt => let e := exponent64 x in
          (inject_Z (round_half_even (x * 2 ^ (- e))) * 2 ^ e)%Q
  | Lt => let e := exponent64 (- x) in
          (- (inject_Z (round_half_even (- x * 2 ^ (- e))) * 2 ^ e))%Q
  end.

(** The unit roundoff of binary64, 2^-53. *)
Definition eps64 : Q := 1 # 9007199254740992.

(** [Array.prototype.sort(compareFn)]: the sort is stable; an element is
    placed before another exactly when [compareFn] says so or, on a tie,
    when it came first in the input. *)
Section ArraySort.
Context {A : Type} (compareFn : A -> A -> Z).

Fixpoint sort_insert (x : A) (l : list A) : list A :=
  match l with
  | [] => [x]
  | y :: l' => if compareFn x y <=? 0 then x :: y :: l'
               else y :: sort_insert x l'
  end.

Definition Array_sort (l : list A) : list A :=
  fold_right sort_insert [] l.
End ArraySort.

(** [Array.prototype.includes] on an array of strings. *)
Definition includes_string (l : list string) (s : string) : bool :=
  existsb (String.eqb s) l.

Definition includes_category (l : list Category) (c : Category) : bool :=
  existsb (Category_eqb c) l.

(* ===================================================================== *)
(** ** docs/altitude-system.md: the altitude calculation algorithm *)
(* ===================================================================== *)

Inductive AltitudeLevel : Type :=
  | GROUNDED | HANGAR | RUNWAY | TAKEOFF | CLIMBING | CRUISING
  | STRATOSPHERE | KARMAN | ORBIT | GEOSTATIONARY | VOYAGER.

(** The eleven levels in the ascending order of the altitude scale. *)
Definition ALTITUDE_LEVELS : list AltitudeLevel :=
  [ GROUNDED; HANGAR; RUNWAY; TAKEOFF; CLIMBING; CRUISING;
    STRATOSPHERE; KARMAN; ORBIT; GEOSTATIONARY; VOYAGER ].

Definition level_index (l : AltitudeLevel) : nat :=
  match l with
  | GROUNDED => 0 | HANGAR => 1 | RUNWAY => 2 | TAKEOFF => 3
  | CLIMBING => 4 | CRUISING => 5 | STRATOSPHERE => 6 | KARMAN => 7
  | ORBIT => 8 | GEOSTATIONARY => 9 | VOYAGER => 10
  end%nat.

Inductive AltitudeUnit : Type := ft | km.

(** An altitude value is a finite number or [Infinity]. *)
Inductive AltitudeValue : Type :=
  | Finite (v : Z)
  | Infinity.

Module Altitude.
Record t : Type := mk {
  value : AltitudeValue;
  level : AltitudeLevel;
  unit : AltitudeUnit
}.
End Altitude.

Definition usersToAltitude (users : Z) : Altitude.t :=
  if users =? 0 then Altitude.mk (Finite 0) GROUNDED ft
  else if users <? 10 then Altitude.mk (Finite 0) HANGAR ft
  else if users <? 100 then Altitude.mk (Finite 0) RUNWAY ft
  else if users <? 1000 then Altitude.mk (Finite 1000) TAKEOFF ft
  else if users <? 10000 then Altitude.mk (Finite 10000) CLIMBING ft
  else if users <? 100000 then Altitude.mk (Finite 35000) CRUISING ft
  else if users <? 1000000 then Altitude.mk (Finite 50000) STRATOSPHERE ft
  else if users <? 10000000 then Altitude.mk (Finite 100) KARMAN km
  else if users <? 100000000 then Altitude.mk (Finite 400) ORBIT km
  else if users <? 1000000000 then Altitude.mk (Finite 36000) GEOSTATIONARY km
  else Altitude.mk Infinity VOYAGER km.

(** The user thresholds at which [usersToAltitude] changes level, one per
    level of [ALTITUDE_LEVELS]. *)
Definition LEVEL_BREAKPOINTS : list Z :=
  [ 0; 1; 10; 100; 1000; 10000; 100000; 1000000; 10000000; 100000000;
    1000000000 ].

(** The breakpoint table as the specification words it (ten entries). *)
Definition SPEC_BREAKPOINTS : list Z :=
  [ 0; 10; 100; 1000; 10000; 100000; 1000000; 10000000; 100000000;
    1000000000 ].

(** Highest entry of an ascending table that is [<= users]; [None] when
    every entry is above [users]. *)
Fixpoint highest_breakpoint (table : list Z) (users : Z) : option Z :=
  match table with
  | [] => None
  | b :: rest =>
      if b <=? users then
        match highest_breakpoint rest users with
        | Some b' => Some b'
        | None => Some b
        end
      else None
  end.

(** The altitude document does not declare [Fix]; it is an opaque label. *)
Definition Fix : Type := string.

Module CategoryResult.
Record t : Type := mk {
  category : Category;
  score : Z;          (* 0-100 *)
  maxUsers : Z;       (* based on score tier *)
  bottleneck : bool;  (* is this the limiting factor? *)
  fixes : list Fix    (* what would increase altitude *)
}.

(** [{ ...c, bottleneck: b }] *)
Definition with_bottleneck (c : t) (b : bool) : t :=
  mk (category c) (score c) (maxUsers c) b (fixes c).
End CategoryResult.

(** "Max Users If Perfect" of the category altitude limits table: the
    ceiling of a category in its top (90-100) tier. *)
Definition maxUsersIfPerfect (c : Category) : Z :=
  match c with
  | database => 10000000
  | backend => 5000000
  | deployment => 1000000
  | security => 500000
  | errorHandling => 500000
  | authentication => 200000
  | apiIntegrations => 100000
  | stateManagement => 100000
  | testing => 50000
  | versionControl => 50000
  | designUx => 20000
  | frontend => 10000
  end.

Section CalculateAltitude.
(** [calculateNextLevel] is called but not defined in the document. *)
Context {NextLevel : Type}.
Variable calculateNextLevel : Z -> list CategoryResult.t -> NextLevel.

Record AltitudeReport : Type := mkAltitudeReport {
  currentAltitude : AltitudeValue;
  altitudeLevel : AltitudeLevel;
  maxConcurrentUsers : Z;
  bottleneck : CategoryResult.t;
  categories : list CategoryResult.t;
  toNextLevel : NextLevel
}.

(** The mean of the scores in exact arithmetic; [avgScore_binary64] below
    is the value the source computes. *)
Definition avgScore (categories : list CategoryResult.t) : Q :=
  inject_Z (fold_left (fun sum c => sum + CategoryResult.score c) categories 0)
  / inject_Z (Z.of_nat (List.length categories)).

(** [None] stands for the [TypeError] raised by [bottleneck.maxUsers]
    when [sorted[0]] is [undefined] (empty input).  The arithmetic is
    exact here; [calculateAltitude_binary64] below rounds it as the source
    does and differs in the user count (and the altitude derived from
    it) only. *)
Definition calculateAltitude (categories : list CategoryResult.t)
  : option AltitudeReport :=
  (* Find the bottleneck (lowest maxUsers) *)
  let sorted :=
    Array_sort (fun a b => CategoryResult.maxUsers a - CategoryResult.maxUsers b)
               categories in
  match sorted with
  | [] => None
  | bottleneck :: _ =>
      (* Your altitude is limited by your weakest component *)
      let maxConcurrentUsers := CategoryResult.maxUsers bottleneck in
      (* Apply multiplier based on overall health *)
      let healthMultiplier := (avgScore categories / inject_Z 100)%Q in
      let effectiveUsers :=
        Math_floor (inject_Z maxConcurrentUsers * healthMultiplier)%Q in
      (* Convert to altitude *)
      let altitude := usersToAltitude effectiveUsers in
      Some (mkAltitudeReport
              (Altitude.value altitude)
              (Altitude.level altitude)
              effectiveUsers
              (CategoryResult.with_bottleneck bottleneck true)
              (map (fun c =>
                      CategoryResult.with_bottleneck c
                        (Category_eqb (CategoryResult.category c)
                                      (CategoryResult.category bottleneck)))
                   categories)
              (calculateNextLevel effectiveUsers categories))
  end.
End CalculateAltitude.

Arguments AltitudeReport : clear implicits.

(** [categories.reduce((sum, c) => sum + c.score, 0) / categories.length]
    with every addition and the division rounded. *)
Definition avgScore_binary64 (categories : list CategoryResult.t) : Q :=
  round64
    (fold_left (fun sum c => round64 (sum + inject_Z (CategoryResult.score c)))
               categories 0
     / inject_Z (Z.of_nat (List.length categories)))%Q.

(** The effective users from the integer sum of the scores: the two
    divisions and the product of the source, each rounded, and the
    floor. *)
Definition effectiveUsers_binary64 (maxConcurrentUsers sum count : Z) : Z :=
  let avgScore := round64 (inject_Z sum / inject_Z count) in
  let healthMultiplier := round64 (avgScore / inject_Z 100) in
  Math_floor (round64 (inject_Z maxConcurrentUsers * healthMultiplier)).

(** The same three operations on the primitive binary64 numbers of the
    proof assistant, against which [round64] is compared on concrete
    inputs.  The result is [None] when the product is infinite or not a
    number. *)
Definition Q_of_float (f : float) : option Q :=
  match Prim2SF f with
  | S754_zero _ => Some 0%Q
  | S754_finite s m e =>
      Some ((if s then -1 else 1) * inject_Z (Zpos m) * 2 ^ e)%Q
  | S754_infinity _ | S754_nan => None
  end.

Definition float_of_Z (z : Z) : float := PrimFloat.of_uint63 (Uint63.of_Z z).

Definition effectiveUsers_float (maxConcurrentUsers sum count : Z) : option Z :=
  let avgScore := PrimFloat.div (float_of_Z sum) (float_of_Z count) in
  let healthMultiplier := PrimFloat.div avgScore (float_of_Z 100) in
  option_map Math_floor
    (Q_of_float (PrimFloat.mul (float_of_Z maxConcurrentUsers) healthMultiplier)).

Section CalculateAltitudeBinary64.
Context {NextLevel : Type}.
Variable calculateNextLevel : Z -> list CategoryResult.t -> NextLevel.

(** [calculateAltitude] with the arithmetic of the source in binary64. *)
Definition calculateAltitude_binary64 (categories : list CategoryResult.t)
  : option (AltitudeReport NextLevel) :=
  (* Find the bottleneck (lowest maxUsers) *)
  let sorted :=
    Array_sort (fun a b => CategoryResult.maxUsers a - CategoryResult.maxUsers b)
               categories in
  match sorted with
  | [] => None
  | bottleneck :: _ =>
      (* Your altitude is limited by your weakest component *)
      let maxConcurrentUsers := CategoryResult.maxUsers bottleneck in
      (* Calculate overall score *)
      let avgScore := avgScore_binary64 categories in
      (* Apply multiplier based on overall health *)
      let healthMultiplier := round64 (avgScore / inject_Z 100) in
      let effectiveUsers :=
        Math_floor (round64 (inject_Z maxConcurrentUsers * healthMultiplier)) in
      (* Convert to altitude *)
      let altitude := usersToAltitude effectiveUsers in
      Some (mkAltitudeReport
              (Altitude.value altitude)
              (Altitude.level altitude)
              effectiveUsers
              (CategoryResult.with_bottleneck bottleneck true)
              (map (fun c =>
                      CategoryResult.with_bottleneck c
                        (Category_eqb (CategoryResult.category c)
                                      (CategoryResult.category bottleneck)))
                   categories)
              (calculateNextLevel effectiveUsers categories))
  end.
End CalculateAltitudeBinary64.

(* ===================================================================== *)
(** ** lib/inprod/analyzer: the parts the specification describes *)
(* ===================================================================== *)

Definition clamp (lo hi x : Z) : Z := Z.max lo (Z.min hi x).

Definition sum_Z (l : list Z) : Z := fold_left Z.add l 0.

Definition allGaps (categories : list CategoryScore.t) : list Gap.t :=
  flat_map CategoryScore.gaps categories.

Definition isInstant (g : Gap.t) : bool := FixType_eqb (Gap.fixType g) instant.

(** Modelled from the spec: [getInstantFixGaps] of lib/inprod/analyzer is
    not among the sources.  The specification counts "instant-fix gaps"
    as the gaps with fixType = instant over all categories' gap lists. *)
Definition getInstantFixGaps (analysis : CompletenessAnalysis.t) : list Gap.t :=
  filter isInstant (allGaps (CompletenessAnalysis.categories analysis)).

Definition string_of_Z (z : Z) : string := NilZero.string_of_int (Z.to_int z).

Definition newline : string := String (ascii_of_nat 10) EmptyString.

(** [String.prototype.includes]. *)
Fixpoint String_includes (s sub : string) : bool :=
  if String.prefix sub s then true
  else match s with
       | EmptyString => false
       | String _ s' => String_includes s' sub
       end.

(** Modelled from the spec: [formatAnalysisSummary] of lib/inprod/analyzer
    is not among the sources.  The specification makes it a pure text
    rendering with no decision logic whose digest carries the headings
    "Production Readiness" and "Category Scores" and lists the name of
    every detected framework. *)
Definition formatAnalysisSummary (analysis : CompletenessAnalysis.t) : string :=
  ("Production Readiness: "
   ++ string_of_Z (CompletenessAnalysis.overallScore analysis) ++ "/100"
   ++ newline
   ++ "Frameworks: "
   ++ String.concat ", "
        (TechStack.frameworks (CompletenessAnalysis.techStack analysis))
   ++ newline
   ++ "Category Scores" ++ newline
   ++ String.concat newline
        (map (fun c => CategoryScore.label c ++ ": "
                       ++ string_of_Z (CategoryScore.score c) ++ "/100")
             (CompletenessAnalysis.categories analysis)))%string.

Module ScorerOutput.
Record t : Type := mk {
  points : Z;                (* checklist sum before clamping *)
  detected : list string;
  gaps : list Gap.t
}.
End ScorerOutput.

Section Analyzer.
(** Modelled from the spec: the TechStackDetector (section 4.1) is not
    among the sources; the analysis only needs the profile it returns. *)
Variable detectTechStack : list RepoFile.t -> TechStack.t.

(** Modelled from the spec: the twelve category scorers (section 4.2)
    are not among the sources.  A scorer is a pure function of the
    corpus and the profile; [None] is an internal failure on malformed
    input. *)
Variable scorer :
  Category -> list RepoFile.t -> TechStack.t -> option ScorerOutput.t.

(** The synthetic gap that describes an analysis failure. *)
Variable analysisFailureGap : Category -> Gap.t.

Definition isApplicable (p : Platform.t) (c : Category) : bool :=
  includes_category (PLATFORM_CATEGORIES p) c.

(** Modelled from the spec: one scorer run, failing closed: a failure
    gives score 0, one synthetic gap and canGenerate = false; otherwise
    the points are clamped to [0,100] and canGenerate holds iff some gap
    is instant. *)
Definition runScorer (files : list RepoFile.t) (tech : TechStack.t)
           (c : Category) : CategoryScore.t :=
  match scorer c files tech with
  | None =>
      CategoryScore.mk c (CATEGORY_LABELS c) 0 [] [analysisFailureGap c] false
  | Some out =>
      CategoryScore.mk c (CATEGORY_LABELS c)
        (clamp 0 100 (ScorerOutput.points out))
        (ScorerOutput.detected out)
        (ScorerOutput.gaps out)
        (existsb isInstant (ScorerOutput.gaps out))
  end.

Definition countSeverity (s : Severity) (gs : list Gap.t) : Z :=
  Z.of_nat (List.length
    (filter (fun g => match Gap.severity g, s with
                      | blocker, blocker | critical, critical
                      | warning, warning | info, info => true
                      | _, _ => false
                      end) gs)).

(** Modelled from the spec: [analyzeCompleteness] of lib/inprod/analyzer
    is not among the sources.  The registry is walked in the fixed
    declaration order; a category not applicable to the detected
    platform is omitted; overallScore is the rounded mean of the
    applicable scores clamped to [0,100]; the counters are sums over all
    gap lists.  [None] is the explicit failed result for zero applicable
    categories. *)
Definition analyzeCompleteness (repoUrl : string) (files : list RepoFile.t)
  : option CompletenessAnalysis.t :=
  let tech := detectTechStack files in
  let categories :=
    map (runScorer files tech)
        (filter (isApplicable (TechStack.platform tech)) CATEGORIES) in
  match categories with
  | [] => None
  | _ :: _ =>
      let gs := allGaps categories in
      Some (CompletenessAnalysis.mk
              repoUrl tech
              (clamp 0 100
                 (Math_round
                    (inject_Z (sum_Z (map CategoryScore.score categories))
                     / inject_Z (Z.of_nat (List.length categories)))))
              categories
              (Z.of_nat (List.length gs))
              (countSeverity blocker gs)
              (countSeverity critical gs)
              (countSeverity warning gs)
              (sum_Z (map (fun g => match Gap.effortMinutes g with
                                    | Some m => m
                                    | None => 0
                                    end) gs))
              (Z.of_nat (List.length (filter isInstant gs))))
  end.
End Analyzer.

(* ===================================================================== *)
(** ** app/api/generate/route.ts *)
(* ===================================================================== *)

Module GenerateRequest.
Record t : Type := mk {
  repoUrl : string;
  files : option (list RepoFile.t);
  categories : option (list Category);
  gapsToFix : option (list string);   (* gap ids to fix *)
  instantOnly : option bool           (* only auto-fixable gaps *)
}.
End GenerateRequest.

(** Determine which gaps to fix. *)
Definition targetGaps (analysis : CompletenessAnalysis.t)
           (body : GenerateRequest.t) : list Gap.t :=
  match GenerateRequest.gapsToFix body with
  | Some ((_ :: _) as gapsToFix) =>
      (* Fix specific gaps *)
      filter (fun g => includes_string gapsToFix (Gap.id g))
             (flat_map CategoryScore.gaps
                       (CompletenessAnalysis.categories analysis))
  | _ =>
      match GenerateRequest.instantOnly body with
      | Some true =>
          (* Only instant-fix gaps *)
          getInstantFixGaps analysis
      | _ =>
          match GenerateRequest.categories body with
          | Some ((_ :: _) as categories) =>
              (* All gaps in specified categories *)
              flat_map CategoryScore.gaps
                (filter (fun c => includes_category categories
                                    (CategoryScore.category c))
                        (CompletenessAnalysis.categories analysis))
          | _ =>
              (* All instant-fix gaps *)
              getInstantFixGaps analysis
          end
      end
  end.

(** A JavaScript [Map] with [Category] keys: the entries in insertion
    order.  [set] on a present key keeps the entry's position. *)
Definition CategoryMap (V : Type) : Type := list (Category * V).

Fixpoint Map_get {V} (m : CategoryMap V) (k : Category) : option V :=
  match m with
  | [] => None
  | (k', v) :: m' => if Category_eqb k k' then Some v else Map_get m' k
  end.

Fixpoint Map_set {V} (m : CategoryMap V) (k : Category) (v : V)
  : CategoryMap V :=
  match m with
  | [] => [(k, v)]
  | (k', v') :: m' =>
      if Category_eqb k k' then (k, v) :: m'
      else (k', v') :: Map_set m' k v
  end.

Definition Map_keys {V} (m : CategoryMap V) : list Category := map fst m.

(** [m.get(k) || []] *)
Definition Map_get_or_empty {V} (m : CategoryMap (list V)) (k : Category)
  : list V :=
  match Map_get m k with
  | Some l => l
  | None => []
  end.

(** Group gaps by category: the loop over [targetGaps].  [existing.push]
    mutates the array held by the map, which the following [set] stores
    again under the same key. *)
Definition gapsByCategory (targetGaps : list Gap.t) : CategoryMap (list Gap.t) :=
  fold_left
    (fun m gap =>
       let existing := Map_get_or_empty m (Gap.category gap) in
       Map_set m (Gap.category gap) (existing ++ [gap])%list)
    targetGaps [].

Section Generate.
(** The fix generators and the repository context are collaborators
    outside the sources. *)
Context {RepoContext GeneratedFile : Type}.
Variable generateSecurityFixes : RepoContext -> list Gap.t -> list GeneratedFile.
Variable generateTests : RepoContext -> list Gap.t -> list GeneratedFile.
Variable generateCICD : RepoContext -> list Gap.t -> list GeneratedFile.
Variable generateReadme : RepoContext -> list GeneratedFile.

Record GenerateSummary : Type := mkGenerateSummary {
  summary_totalGaps : nat;
  summary_filesGenerated : nat;
  summary_categories : list Category
}.

Record GenerateResponse : Type := mkGenerateResponse {
  success : bool;
  generatedFiles : list GeneratedFile;
  summary : GenerateSummary
}.

(** The body of [POST] from the gap selection to the response, for an
    analysis and a generator context already built. *)
Definition generate (ctx : RepoContext) (analysis : CompletenessAnalysis.t)
           (body : GenerateRequest.t) : GenerateResponse :=
  let targetGaps := targetGaps analysis body in
  let gapsByCategory := gapsByCategory targetGaps in
  (* Security fixes *)
  let securityGaps := Map_get_or_empty gapsByCategory security in
  let generatedFiles :=
    if (0 <? List.length securityGaps)%nat
    then generateSecurityFixes ctx securityGaps else [] in
  (* Testing fixes *)
  let testingGaps := Map_get_or_empty gapsByCategory testing in
  let generatedFiles :=
    if (0 <? List.length testingGaps)%nat
    then (generatedFiles ++ generateTests ctx testingGaps)%list
    else generatedFiles in
  (* Deployment/CI fixes *)
  let deployGaps := Map_get_or_empty gapsByCategory deployment in
  let generatedFiles :=
    if (0 <? List.length deployGaps)%nat
    then (generatedFiles ++ generateCICD ctx deployGaps)%list
    else generatedFiles in
  (* Version control (README) *)
  let vcGaps := Map_get_or_empty gapsByCategory versionControl in
  let needsReadme :=
    existsb (fun g => String.eqb (Gap.id g) "vc-no-readme") vcGaps in
  let generatedFiles :=
    if needsReadme then (generatedFiles ++ generateReadme ctx)%list
    else generatedFiles in
  mkGenerateResponse true generatedFiles
    (mkGenerateSummary (List.length targetGaps)
                       (List.length generatedFiles)
                       (Map_keys gapsByCategory)).
End Generate.

(* ===================================================================== *)
(** ** lib/rate-limit.ts *)
(* ===================================================================== *)

Module RateLimitResult.
Record t : Type := mk {
  success : bool;
  reset : Q;
  remaining : Z
}.
End RateLimitResult.

(** [new Date(t)]: the time value is [t] truncated toward zero. *)
Definition new_Date (t : Q) : Z :=
  if Qle_bool 0 t then Qfloor t else Qceiling t.

Definition DEFAULT_LIMIT : Z := 5.
Definition DEFAULT_WINDOW_MS : Q := inject_Z (24 * 60 * 60 * 1000). (* 24 hours *)

Section RateLimit.
(** The database behind the Prisma client and the errors it throws. *)
Context {DB Err : Type}.

(** A database operation either throws or returns, and leaves a
    database state behind in both cases. *)
Definition Prisma (A : Type) : Type := DB -> (Err + A) * DB.

Definition ret {A} (a : A) : Prisma A := fun db => (inr a, db).

Definition bind {A B} (m : Prisma A) (k : A -> Prisma B) : Prisma B :=
  fun db =>
    match m db with
    | (inl e, db') => (inl e, db')
    | (inr a, db') => k a db'
    end.

(** [try { body } catch (error) { handler }] with a handler that returns. *)
Definition try_catch {A} (body : Prisma A) (handler : Err -> A)
  : DB -> A * DB :=
  fun db =>
    match body db with
    | (inl e, db') => (handler e, db')
    | (inr a, db') => (a, db')
    end.

(** The three operations [rateLimit] asks of the Prisma client. *)
Record PrismaClient : Type := mkPrismaClient {
  (* DELETE FROM "RateLimit" WHERE "createdAt" < $1 *)
  executeRaw_deleteBefore : Z -> Prisma unit;
  (* rateLimit.count({ where: { identifier, createdAt: { gte } } }) *)
  rateLimit_count : string -> Z -> Prisma Z;
  (* rateLimit.create({ data: { identifier } }) *)
  rateLimit_create : string -> Prisma unit
}.

Variable prisma : PrismaClient.

Notation "x <- m ;; k" := (bind m (fun x => k))
  (at level 61, m at next level, right associativity).
Notation "m ;;; k" := (bind m (fun _ => k))
  (at level 61, right associativity).

(** The [try] block of [rateLimit]. *)
Definition rateLimit_try (now : Z) (identifier : string) (limit : Z)
           (windowMs : Q) : Prisma RateLimitResult.t :=
  let windowStart := (inject_Z now - windowMs)%Q in
  (* Clean up old entries *)
  executeRaw_deleteBefore prisma (new_Date windowStart) ;;;
  (* Count requests in current window *)
  count <- rateLimit_count prisma identifier (new_Date windowStart) ;;
  if count >=? limit then
    ret (RateLimitResult.mk
           false
           (inject_Z (Math_ceil (windowStart + windowMs)))
           0)
  else
    (* Record this request *)
    rateLimit_create prisma identifier ;;;
    ret (RateLimitResult.mk
           true
           (inject_Z (Math_ceil (windowStart + windowMs)))
           (limit - count - 1)).

(** [rateLimit], with [now] the value of [Date.now()] at the call.  The
    [console.error] of the handler has no effect on the result. *)
Definition rateLimit (now : Z) (identifier : string) (limit : Z)
           (windowMs : Q) : DB -> RateLimitResult.t * DB :=
  try_catch
    (rateLimit_try now identifier limit windowMs)
    (fun error =>
       (* Fail open in case of database issues *)
       RateLimitResult.mk true (inject_Z now + windowMs)%Q (limit - 1)).
End RateLimit.

Arguments Prisma : clear implicits.
Arguments PrismaClient : clear implicits.

(** Two stand-ins for the database, used to run [rateLimit] on concrete
    inputs: a table of (identifier, createdAt) rows whose operations never
    throw and whose clock is fixed, and a database that is down. *)
Module TestDoubles.
Definition Table : Type := list (string * Z).

Definition memoryPrisma (clock : Z) : PrismaClient Table string :=
  mkPrismaClient
    (fun before db =>
       (inr tt, filter (fun row => before <=? snd row) db))
    (fun identifier gte db =>
       (inr (Z.of_nat (List.length
               (filter (fun row => String.eqb (fst row) identifier
                                   && (gte <=? snd row)) db))),
        db))
    (fun identifier db => (inr tt, (db ++ [(identifier, clock)])%list)).

Definition downPrisma : PrismaClient Table string :=
  mkPrismaClient
    (fun _ db => (inl "connection refused"%string, db))
    (fun _ _ db => (inl "connection refused"%string, db))
    (fun _ db => (inl "connection refused"%string, db)).
End TestDoubles.

(* ===================================================================== *)
(** ** lib/inprod/types.ts: platform-specific category overrides *)
(* ===================================================================== *)

Module CategoryOverride.
Record t : Type := mk {
  label : string;
  checks : list string
}.
End CategoryOverride.

(** Platform-specific category overrides (e.g., iOS uses XCTest not
    Vitest); [None] where the partial record has no entry. *)
Definition PLATFORM_OVERRIDES (p : Platform.t) (c : Category)
  : option CategoryOverride.t :=
  match p, c with
  | Platform.ios, testing =>
      Some (CategoryOverride.mk "Testing (XCTest)"
              ["XCTest"; "Quick/Nimble"; "Fastlane scan"]%string)
  | Platform.ios, deployment =>
      Some (CategoryOverride.mk "App Store"
              ["Fastlane"; "Xcode Cloud"; "TestFlight"; "App Store Connect"]%string)
  | Platform.ios, security =>
      Some (CategoryOverride.mk "iOS Security"
              ["Keychain"; "ATS"; "Entitlements"; "Privacy Manifest"]%string)
  | Platform.android, testing =>
      Some (CategoryOverride.mk "Testing (JUnit)"
              ["JUnit"; "Espresso"; "Robolectric"]%string)
  | Platform.android, deployment =>
      Some (CategoryOverride.mk "Play Store"
              ["Fastlane"; "Google Play Console"; "Firebase App Distribution"]%string)
  | Platform.cli, deployment =>
      Some (CategoryOverride.mk "Distribution"
              ["Homebrew"; "npm"; "cargo"; "goreleaser"]%string)
  | Platform.library, deployment =>
      Some (CategoryOverride.mk "Publishing"
              ["npm"; "PyPI"; "crates.io"; "Maven Central"]%string)
  | _, _ => None
  end.

Definition ALL_PLATFORMS : list Platform.t :=
  [ Platform.web; Platform.ios; Platform.android; Platform.backend;
    Platform.cli; Platform.library; Platform.monorepo ].

(* ===================================================================== *)
(** ** app/api/generate/route.ts: [fetchRepoFiles] and [POST] *)
(* ===================================================================== *)

(** A computation that returns or throws; the thrown value is kept as the
    message [POST] reports for it. *)
Definition Exc (A : Type) : Type := (string + A)%type.

Definition exc_bind {A B} (m : Exc A) (k : A -> Exc B) : Exc B :=
  match m with
  | inl e => inl e
  | inr a => k a
  end.

Module TreeItem.
Record t : Type := mk {
  type : string;
  path : string;
  size : option Z
}.
End TreeItem.

(** The answer of the tree request: [treeRes.ok] with the parsed tree, or
    a status that is not ok. *)
Inductive TreeResponse : Type :=
  | TreeOk (tree : list TreeItem.t)
  | TreeNotOk (status : Z).

(** [repo.replace(/\.git$/, '')] *)
Fixpoint stripGitSuffix (repo : string) : string :=
  match repo with
  | EmptyString => EmptyString
  | String c rest =>
      if String.eqb repo ".git" then EmptyString
      else String c (stripGitSuffix rest)
  end.

(** [item.size || 0] and [item.size || content.length]. *)
Definition size_or (size : option Z) (default : Z) : Z :=
  match size with
  | Some n => if n =? 0 then default else n
  | None => default
  end.

(** The filter on tree items: relevant files only. *)
Definition isRelevant (item : TreeItem.t) : bool :=
  String.eqb (TreeItem.type item) "blob"
  && negb (String_includes (TreeItem.path item) "node_modules")
  && negb (String_includes (TreeItem.path item) ".git/")
  && negb (String_includes (TreeItem.path item) "dist/")
  && negb (String_includes (TreeItem.path item) "build/")
  && negb (String_includes (TreeItem.path item) ".next/")
  && (size_or (TreeItem.size item) 0 <? 100000).

(** [Array.prototype.slice(start, end)] for indices within range order. *)
Definition Array_slice {A} (l : list A) (start stop : nat) : list A :=
  firstn (stop - start) (skipn start l).

(** [contents.filter(Boolean)] on an array of files and nulls. *)
Fixpoint filter_Boolean {A} (l : list (option A)) : list A :=
  match l with
  | [] => []
  | Some a :: l' => a :: filter_Boolean l'
  | None :: l' => filter_Boolean l'
  end.

Section FetchRepoFiles.
(** [repoUrl.match(/github\.com\/([^\/]+)\/([^\/\s#?]+)/)]: the owner and
    repo groups, or no match. *)
Variable matchRepoUrl : string -> option (string * string).
(** The request for the repo tree; it may reject. *)
Variable fetchTree : string -> string -> Exc TreeResponse.
(** The request for one file's raw content; [None] when the response is
    not ok or the request throws (both give [null]). *)
Variable fetchContent : string -> string -> string -> option string.

Definition fetchFile (owner cleanRepo : string) (item : TreeItem.t)
  : option RepoFile.t :=
  match fetchContent owner cleanRepo (TreeItem.path item) with
  | None => None
  | Some content =>
      Some (RepoFile.mk (TreeItem.path item) content
              (size_or (TreeItem.size item)
                       (Z.of_nat (String.length content))))
  end.

(** The loop [for (let i = 0; i < relevantFiles.length; i += 10)], with
    the iterations left as fuel. *)
Fixpoint fetchBatches (fuel : nat) (owner cleanRepo : string)
         (relevantFiles : list TreeItem.t) (i : nat)
         (files : list RepoFile.t) : list RepoFile.t :=
  match fuel with
  | O => files
  | S fuel' =>
      if (i <? List.length relevantFiles)%nat then
        let batch := Array_slice relevantFiles i (i + 10) in
        let contents := map (fetchFile owner cleanRepo) batch in
        fetchBatches fuel' owner cleanRepo relevantFiles (i + 10)
                     (files ++ filter_Boolean contents)%list
      else files
  end.

Definition relevantFiles (tree : list TreeItem.t) : list TreeItem.t :=
  firstn 200 (filter isRelevant tree).

Definition fetchRepoFiles (repoUrl : string) : Exc (list RepoFile.t) :=
  (* Extract owner/repo from URL *)
  match matchRepoUrl repoUrl with
  | None => inl "Invalid GitHub URL"%string
  | Some (owner, repo) =>
      let cleanRepo := stripGitSuffix repo in
      (* Fetch repo tree *)
      exc_bind (fetchTree owner cleanRepo) (fun treeRes =>
      match treeRes with
      | TreeNotOk status =>
          inl ("Failed to fetch repo: " ++ string_of_Z status)%string
      | TreeOk tree =>
          let relevant := relevantFiles tree in
          inr (fetchBatches (S (List.length relevant)) owner cleanRepo
                            relevant 0 [])
      end)
  end.
End FetchRepoFiles.

Module RepoContext.
Record t {Json : Type} : Type := mk {
  files : list RepoFile.t;
  techStack : TechStack.t;
  packageJson : option Json;
  readme : option string
}.
Arguments t : clear implicits.
End RepoContext.

(** What [POST] answers: the success body with status 200, or an error
    body with its status. *)
Inductive PostResponse {GeneratedFile : Type} : Type :=
  | Json200 (body : GenerateResponse (GeneratedFile := GeneratedFile))
  | JsonError (status : Z) (error : string).
Arguments PostResponse : clear implicits.

Section Post.
Context {Json GeneratedFile : Type}.
(** [JSON.parse] and [String.prototype.toLowerCase]. *)
Variable JSON_parse : string -> Exc Json.
Variable toLowerCase : string -> string.
(** The collaborators [POST] awaits; each may throw. *)
Variable fetchRepoFiles' : string -> Exc (list RepoFile.t).
Variable analyzeCompleteness' :
  string -> list RepoFile.t -> Exc CompletenessAnalysis.t.
Variable generateSecurityFixes :
  RepoContext.t Json -> list Gap.t -> Exc (list GeneratedFile).
Variable generateTests :
  RepoContext.t Json -> list Gap.t -> Exc (list GeneratedFile).
Variable generateCICD :
  RepoContext.t Json -> list Gap.t -> Exc (list GeneratedFile).
Variable generateReadme : RepoContext.t Json -> Exc (list GeneratedFile).

Notation "x <- m ;; k" := (exc_bind m (fun x => k))
  (at level 61, m at next level, right associativity).

(** Build context for generators. *)
Definition buildContext (repoFiles : list RepoFile.t)
           (analysis : CompletenessAnalysis.t) : Exc (RepoContext.t Json) :=
  let packageJsonFile :=
    find (fun f => String.eqb (RepoFile.path f) "package.json") repoFiles in
  packageJson <- match packageJsonFile with
                 | Some f => j <- JSON_parse (RepoFile.content f) ;; inr (Some j)
                 | None => inr None
                 end ;;
  let readmeFile :=
    find (fun f => String.eqb (toLowerCase (RepoFile.path f)) "readme.md")
         repoFiles in
  inr (RepoContext.mk Json repoFiles
         (CompletenessAnalysis.techStack analysis)
         packageJson
         (option_map RepoFile.content readmeFile)).

(** The [try] block of [POST], for a request body already parsed. *)
Definition POST_try (body : GenerateRequest.t)
  : Exc (PostResponse GeneratedFile) :=
  let repoUrl := GenerateRequest.repoUrl body in
  if String.eqb repoUrl "" then
    inr (JsonError 400 "repoUrl is required")
  else
    (* Get files if not provided *)
    repoFiles <- match GenerateRequest.files body with
                 | Some ((_ :: _) as files) => inr files
                 | _ => fetchRepoFiles' repoUrl
                 end ;;
    (* Analyze the repo *)
    analysis <- analyzeCompleteness' repoUrl repoFiles ;;
    (* Determine which gaps to fix *)
    let targetGaps := targetGaps analysis body in
    ctx <- buildContext repoFiles analysis ;;
    (* Group gaps by category *)
    let gapsByCategory := gapsByCategory targetGaps in
    (* Security fixes *)
    let securityGaps := Map_get_or_empty gapsByCategory security in
    securityFiles <- (if (0 <? List.length securityGaps)%nat
                      then generateSecurityFixes ctx securityGaps
                      else inr []) ;;
    (* Testing fixes *)
    let testingGaps := Map_get_or_empty gapsByCategory testing in
    testFiles <- (if (0 <? List.length testingGaps)%nat
                  then generateTests ctx testingGaps
                  else inr []) ;;
    (* Deployment/CI fixes *)
    let deployGaps := Map_get_or_empty gapsByCategory deployment in
    cicdFiles <- (if (0 <? List.length deployGaps)%nat
                  then generateCICD ctx deployGaps
                  else inr []) ;;
    (* Version control (README) *)
    let vcGaps := Map_get_or_empty gapsByCategory versionControl in
    let needsReadme :=
      existsb (fun g => String.eqb (Gap.id g) "vc-no-readme") vcGaps in
    readmeFiles <- (if needsReadme then generateReadme ctx else inr []) ;;
    let generatedFiles :=
      (securityFiles ++ testFiles ++ cicdFiles ++ readmeFiles)%list in
    inr (Json200
           (mkGenerateResponse true generatedFiles
              (mkGenerateSummary (List.length targetGaps)
                                 (List.length generatedFiles)
                                 (Map_keys gapsByCategory)))).

(** [POST]: the [catch] turns whatever was thrown into a 500 answer that
    carries its message. *)
Definition POST (body : GenerateRequest.t) : PostResponse GeneratedFile :=
  match POST_try body with
  | inl message => JsonError 500 message
  | inr response => response
  end.
End Post.

(** The HTTP status of an answer of [POST]. *)
Definition postStatus {GeneratedFile : Type}
           (response : PostResponse GeneratedFile) : Z :=
  match response with
  | Json200 _ => 200
  | JsonError status _ => status
  end.

(* ===================================================================== *)
(** ** Notions used to state the properties *)
(* ===================================================================== *)

(** A list of categories that follows the declaration order of
    [CATEGORIES], without repetition. *)
Definition declarationOrdered (cs : list Category) : Prop :=
  StronglySorted (fun a b => (category_index a < category_index b)%nat) cs.

(** Gaps ordered by the declaration index of their category. *)
Definition gapsInCategoryOrder (l : list Gap.t) : Prop :=
  StronglySorted
    (fun a b => (category_index (Gap.category a)
                 <= category_index (Gap.category b))%nat) l.

(** An analysis lists its categories in declaration order, and every gap
    carries the category of the score that holds it. *)
Definition wellFormed (analysis : CompletenessAnalysis.t) : Prop :=
  StronglySorted
    (fun a b => (category_index (CategoryScore.category a)
                 < category_index (CategoryScore.category b))%nat)
    (CompletenessAnalysis.categories analysis)
  /\ Forall (fun s => Forall (fun g => Gap.category g = CategoryScore.category s)
                             (CategoryScore.gaps s))
            (CompletenessAnalysis.categories analysis).

(** The overall score as the specification words it: the rounded mean of
    the scores, clamped to [0,100]. *)
Definition spec_overallScore (categories : list CategoryResult.t) : Z :=
  clamp 0 100 (Math_round (avgScore categories)).

(** The effective users as the specification words them:
    floor(bottleneckCeiling * overallScore / 100). *)
Definition spec_effectiveUsers (bottleneckCeiling overallScore : Z) : Z :=
  Math_floor (inject_Z bottleneckCeiling * inject_Z overallScore / inject_Z 100)%Q.

(** The result of a category that scores 100: its ceiling is the one of
    the top tier. *)
Definition perfectResult (c : Category) : CategoryResult.t :=
  CategoryResult.mk c 100 (maxUsersIfPerfect c) false [].

(** An id list or category list that is missing or empty, and a flag that
    is missing or false, do not select anything by themselves. *)
Definition absentList {A} (l : option (list A)) : Prop := l = None \/ l = Some [].

Definition absentFlag (b : option bool) : Prop := b = None \/ b = Some false.

(** One iteration of the grouping loop. *)
Definition groupStep (m : CategoryMap (list Gap.t)) (gap : Gap.t)
  : CategoryMap (list Gap.t) :=
  Map_set m (Gap.category gap)
          (Map_get_or_empty m (Gap.category gap) ++ [gap])%list.

(** The gaps of category [k] among [l], in the order of [l]. *)
Definition gapsOfCategory (k : Category) (l : list Gap.t) : list Gap.t :=
  filter (fun g => Category_eqb k (Gap.category g)) l.

(** [Some l] for a non-empty [l], [None] for the empty list: what
    [Map.get] returns for a group. *)
Definition nonEmptyOrNone {A} (l : list A) : option (list A) :=
  match l with
  | [] => None
  | _ :: _ => Some l
  end.

Section RateLimitOutcomes.
Context {DB Err : Type}.
Variable prisma : PrismaClient DB Err.
Variables (now : Z) (identifier : string) (limit : Z) (windowMs : Q).

Let windowStart : Q := (inject_Z now - windowMs)%Q.

(** One of the database operations reached by the call throws [e],
    leaving the database [db']: the clean-up, or the count after the
    clean-up, or the insert after a count below the limit. *)
Inductive databaseThrows (db : DB) (e : Err) (db' : DB) : Prop :=
| delete_throws :
    executeRaw_deleteBefore prisma (new_Date windowStart) db = (inl e, db') ->
    databaseThrows db e db'
| count_throws (u : unit) (db1 : DB) :
    executeRaw_deleteBefore prisma (new_Date windowStart) db = (inr u, db1) ->
    rateLimit_count prisma identifier (new_Date windowStart) db1 = (inl e, db') ->
    databaseThrows db e db'
| create_throws (u : unit) (db1 db2 : DB) (count : Z) :
    executeRaw_deleteBefore prisma (new_Date windowStart) db = (inr u, db1) ->
    rateLimit_count prisma identifier (new_Date windowStart) db1
    = (inr count, db2) ->
    count < limit ->
    rateLimit_create prisma identifier db2 = (inl e, db') ->
    databaseThrows db e db'.

(** Every database operation reached by the call returns: the clean-up,
    the count, and the insert when the count is below the limit. *)
Inductive databaseSucceeds (db : DB) : Z -> DB -> Prop :=
| succeeds_denied (u : unit) (db1 db2 : DB) (count : Z) :
    executeRaw_deleteBefore prisma (new_Date windowStart) db = (inr u, db1) ->
    rateLimit_count prisma identifier (new_Date windowStart) db1
    = (inr count, db2) ->
    limit <= count ->
    databaseSucceeds db count db2
| succeeds_allowed (u u' : unit) (db1 db2 db3 : DB) (count : Z) :
    executeRaw_deleteBefore prisma (new_Date windowStart) db = (inr u, db1) ->
    rateLimit_count prisma identifier (new_Date windowStart) db1
    = (inr count, db2) ->
    count < limit ->
    rateLimit_create prisma identifier db2 = (inr u', db3) ->
    databaseSucceeds db count db3.
End RateLimitOutcomes.

(* ===================================================================== *)
(** ** Concrete inputs *)
(* ===================================================================== *)

(** A detector and scorers to run the analysis on concrete inputs: every
    corpus is a web project, every scorer awards 50 points and no gaps. *)
Module AnalyzerDoubles.
Definition webStack : TechStack.t :=
  TechStack.mk Platform.web ["typescript"%string]
               ["next.js"%string; "react"%string]
               (Some "npm"%string) None None None None prototype.

Definition libraryStack : TechStack.t :=
  TechStack.mk Platform.library ["typescript"%string] []
               (Some "npm"%string) None None None None prototype.

Definition flatScorer (c : Category) (files : list RepoFile.t)
           (tech : TechStack.t) : option ScorerOutput.t :=
  Some (ScorerOutput.mk 50 [] []).

Definition failureGap (c : Category) : Gap.t :=
  Gap.mk "analysis-failed" c "Analysis failed" "The category could not be analysed"
         warning possible None None guided None None.
End AnalyzerDoubles.

(** One category with score 29 and ceiling 100: 29/100 is not a binary64
    number and 100 * (29/100) rounds to a value just below 29. *)
Definition single_score_29 : list CategoryResult.t :=
  [ CategoryResult.mk testing 29 100 false [] ].

(** Scores 100, 100 and 50 with least ceiling 120: the mean 250/3 is
    rounded, and 120 * (mean/100) falls just below 100. *)
Definition mean_250_thirds : list CategoryResult.t :=
  [ CategoryResult.mk security 50 120 false [];
    CategoryResult.mk backend 100 5000000 false [];
    CategoryResult.mk database 100 10000000 false [] ].

(** A security score of 19 (tier 0-20, 50 users) next to a perfect
    database (tier 90-100, 10,000,000 users). *)
Definition weak_security_results : list CategoryResult.t :=
  [ CategoryResult.mk security 19 50 false [];
    CategoryResult.mk database 100 10000000 false [] ].

(** Deployment at 60-80 (100,000 users) listed before a perfect state
    management (100,000 users), as in the ios and android rows of
    [PLATFORM_CATEGORIES]. *)
Definition deployment_state_tie : list CategoryResult.t :=
  [ CategoryResult.mk deployment 70 100000 false [];
    CategoryResult.mk stateManagement 100 100000 false [] ].

(** A completed analysis of a Next.js project, as in the test suite. *)
Definition nextjs_analysis : CompletenessAnalysis.t :=
  CompletenessAnalysis.mk
    "https://github.com/test/repo" AnalyzerDoubles.webStack 50
    [ CategoryScore.mk testing "Testing" 50 [] [] false ]
    0 0 0 0 0 0.

(** Gaps and analyses in the shape the analyzer tests use. *)
Definition secGap : Gap.t :=
  Gap.mk "security-no-headers" security "No security headers" "Add security headers"
         critical high None None instant None (Some 5).

Definition testGap : Gap.t :=
  Gap.mk "testing-no-framework" testing "No test framework" "Add a test runner"
         critical proven None None guided None (Some 30).

Definition ciGap : Gap.t :=
  Gap.mk "deploy-no-ci" deployment "No CI" "Add a CI workflow"
         warning proven None None instant None (Some 10).

Definition stateGap : Gap.t :=
  Gap.mk "state-no-persistence" stateManagement "No persistence"
         "Persist client state" warning likely None None instant None (Some 15).

Definition sample_analysis : CompletenessAnalysis.t :=
  CompletenessAnalysis.mk
    "https://github.com/test/repo" AnalyzerDoubles.webStack 40
    [ CategoryScore.mk testing "Testing" 20 [] [testGap] false;
      CategoryScore.mk security "Security" 40 [] [secGap] true;
      CategoryScore.mk deployment "Deployment" 60 [] [ciGap] true ]
    3 0 2 1 45 2.

(** An analysis that lists deployment before state management, the order
    of the ios and android rows of [PLATFORM_CATEGORIES]. *)
Definition ios_order_analysis : CompletenessAnalysis.t :=
  CompletenessAnalysis.mk
    "https://github.com/test/app"
    (TechStack.mk Platform.ios ["swift"%string] [] None None None None None
                  prototype)
    50
    [ CategoryScore.mk deployment "App Store" 60 [] [ciGap] true;
      CategoryScore.mk stateManagement "State Management" 40 [] [stateGap] true ]
    2 0 0 2 25 2.

(** Stand-ins for the collaborators of [POST]: a JSON parser that rejects
    the text "{", a lower-casing that leaves lower-case paths alone, a
    file retrieval that always fails, an analysis that always returns
    [sample_analysis], and generators that name one file per gap. *)
Module PostDoubles.
Definition parseJson (text : string) : Exc string :=
  if String.eqb text "{" then inl "Unexpected end of JSON input"%string
  else inr text.

Definition lowerCase (s : string) : string := s.

Definition failingFetch (repoUrl : string) : Exc (list RepoFile.t) :=
  inl "Invalid GitHub URL"%string.

Definition analyze (repoUrl : string) (files : list RepoFile.t)
  : Exc CompletenessAnalysis.t :=
  inr sample_analysis.

Definition fixPerGap (ctx : RepoContext.t string) (gaps : list Gap.t)
  : Exc (list string) :=
  inr (map Gap.id gaps).

Definition readme (ctx : RepoContext.t string) : Exc (list string) :=
  inr ["README.md"%string].

Definition pageFile : RepoFile.t :=
  RepoFile.mk "app/page.tsx" "export default function Home() {}" 60.


Definition post (fetch : string -> Exc (list RepoFile.t))
           (body : GenerateRequest.t) : PostResponse string :=
  POST parseJson lowerCase fetch analyze fixPerGap fixPerGap fixPerGap readme
       body.
End PostDoubles.

(** Stand-ins for GitHub: a repository whose tree holds a source file, a
    dependency under node_modules, a directory, an oversized blob and a
    README whose content request fails. *)
Module FetchDoubles.
Definition matchUrl (repoUrl : string) : option (string * string) :=
  if String.eqb repoUrl "https://github.com/test/repo.git"
  then Some ("test", "repo.git")%string else None.

Definition tree : list TreeItem.t :=
  [ TreeItem.mk "blob" "src/index.ts" (Some 120);
    TreeItem.mk "blob" "node_modules/left-pad/index.js" (Some 300);
    TreeItem.mk "tree" "src" None;
    TreeItem.mk "blob" "assets/video.bin" (Some 200000);
    TreeItem.mk "blob" "README.md" None ]%string.

Definition fetchTree (owner cleanRepo : string) : Exc TreeResponse :=
  if String.eqb owner "test" && String.eqb cleanRepo "repo"
  then inr (TreeOk tree) else inr (TreeNotOk 404).

Definition fetchContent (owner cleanRepo path : string) : option string :=
  if String.eqb path "src/index.ts" then Some "export {}"%string else None.
End FetchDoubles.

(* ===================================================================== *)
(** * Properties *)
(* ===================================================================== *)

(** ** The declaration order *)

Lemma category_index_CATEGORIES (c : Category) :
  nth_error CATEGORIES (category_index c) = Some c.
Proof. destruct c; reflexivity. Qed.

Lemma CATEGORIES_declarationOrdered : declarationOrdered CATEGORIES.
Proof. unfold declarationOrdered, CATEGORIES. repeat constructor; simpl; lia. Qed.

(** ** Altitude levels ([usersToAltitude]) *)

Ltac split_leb :=
  repeat match goal with
         | |- context [?a <=? ?b] => destruct (Z.leb_spec a b); try lia
         | |- context [?a <? ?b] => destruct (Z.ltb_spec a b); try lia
         | |- context [?a =? ?b] => destruct (Z.eqb_spec a b); try lia
         end.

Ltac in_table :=
  let b' := fresh "b" in
  let Hin := fresh "Hin" in
  intros b' Hin ?; simpl in Hin;
  repeat (destruct Hin as [<-|Hin]; [lia|]); contradiction.

Lemma usersToAltitude_level_cases (users : Z) :
  0 <= users ->
  exists i b,
    nth_error LEVEL_BREAKPOINTS i = Some b
    /\ highest_breakpoint LEVEL_BREAKPOINTS users = Some b
    /\ (forall b', In b' LEVEL_BREAKPOINTS -> b' <= users -> b' <= b)
    /\ nth_error ALTITUDE_LEVELS i
       = Some (Altitude.level (usersToAltitude users)).
Proof.
  intros Hu.
  assert (users = 0 \/ 1 <= users < 10 \/ 10 <= users < 100
          \/ 100 <= users < 1000 \/ 1000 <= users < 10000
          \/ 10000 <= users < 100000 \/ 100000 <= users < 1000000
          \/ 1000000 <= users < 10000000 \/ 10000000 <= users < 100000000
          \/ 100000000 <= users < 1000000000 \/ 1000000000 <= users)
    as Hcases by lia.
  unfold usersToAltitude, LEVEL_BREAKPOINTS, highest_breakpoint.
  destruct Hcases as [H|[H|[H|[H|[H|[H|[H|[H|[H|[H|H]]]]]]]]]].
  - exists 0%nat, 0. split_leb. repeat split; try reflexivity; in_table.
  - exists 1%nat, 1. split_leb. repeat split; try reflexivity; in_table.
  - exists 2%nat, 10. split_leb. repeat split; try reflexivity; in_table.
  - exists 3%nat, 100. split_leb. repeat split; try reflexivity; in_table.
  - exists 4%nat, 1000. split_leb. repeat split; try reflexivity; in_table.
  - exists 5%nat, 10000. split_leb. repeat split; try reflexivity; in_table.
  - exists 6%nat, 100000. split_leb. repeat split; try reflexivity; in_table.
  - exists 7%nat, 1000000. split_leb. repeat split; try reflexivity; in_table.
  - exists 8%nat, 10000000. split_leb. repeat split; try reflexivity; in_table.
  - exists 9%nat, 100000000. split_leb. repeat split; try reflexivity; in_table.
  - exists 10%nat, 1000000000. split_leb. repeat split; try reflexivity; in_table.
Qed.

(** [highest_breakpoint] does return the highest entry that is at most
    [users]: the entry is in the table and no entry above it is. *)
Lemma highest_breakpoint_spec (table : list Z) (users b : Z) :
  highest_breakpoint table users = Some b ->
  In b table /\ b <= users.
Proof.
  revert b. induction table as [|x rest IH]; intros b; simpl.
  - discriminate.
  - destruct (Z.leb_spec x users) as [Hle|Hgt]; [|discriminate].
    destruct (highest_breakpoint rest users) as [b'|] eqn:Hrest.
    + intros [= <-]. destruct (IH b' eq_refl). auto.
    + intros [= <-]. auto.
Qed.

(** C3, as the code has it: for every non-negative user count the level is
    the one paired with the highest breakpoint at most that count in the
    ascending eleven-entry table 0, 1, 10, 100, ..., 1,000,000,000 (one
    entry per level, HANGAR starting at 1); 9 and 10, 99 and 100, 999 and
    1000 land in adjacent, distinct levels. *)
Theorem usersToAltitude_highest_breakpoint (users : Z) (Hnonneg : 0 <= users) :
  (exists i b,
      nth_error LEVEL_BREAKPOINTS i = Some b
      /\ highest_breakpoint LEVEL_BREAKPOINTS users = Some b
      /\ b <= users
      /\ (forall b', In b' LEVEL_BREAKPOINTS -> b' <= users -> b' <= b)
      /\ nth_error ALTITUDE_LEVELS i
         = Some (Altitude.level (usersToAltitude users)))
  /\ (Altitude.level (usersToAltitude 9) = HANGAR
      /\ Altitude.level (usersToAltitude 10) = RUNWAY)
  /\ (Altitude.level (usersToAltitude 99) = RUNWAY
      /\ Altitude.level (usersToAltitude 100) = TAKEOFF)
  /\ (Altitude.level (usersToAltitude 999) = TAKEOFF
      /\ Altitude.level (usersToAltitude 1000) = CLIMBING)
  /\ level_index RUNWAY = S (level_index HANGAR)
  /\ level_index TAKEOFF = S (level_index RUNWAY)
  /\ level_index CLIMBING = S (level_index TAKEOFF).
Proof.
  split; [| repeat split; reflexivity].
  destruct (usersToAltitude_level_cases users Hnonneg)
    as (i & b & Hi & Hb & Hmax & Hl).
  exists i, b. repeat split; try assumption.
  apply (highest_breakpoint_spec _ _ _ Hb).
Qed.

Lemma usersToAltitude_highest_breakpoint_witness :
  0 <= 3200
  /\ Altitude.level (usersToAltitude 3200) = CLIMBING
  /\ exists i b,
      nth_error LEVEL_BREAKPOINTS i = Some b
      /\ highest_breakpoint LEVEL_BREAKPOINTS 3200 = Some b
      /\ b <= 3200
      /\ (forall b', In b' LEVEL_BREAKPOINTS -> b' <= 3200 -> b' <= b)
      /\ nth_error ALTITUDE_LEVELS i
         = Some (Altitude.level (usersToAltitude 3200)).
Proof.
  split; [lia|]. split; [reflexivity|].
  apply (usersToAltitude_highest_breakpoint 3200). lia.
Defined.

(** C3, as worded: with the ten-entry table 0, 10, 100, ... the user
    counts 0 and 5 have the same highest breakpoint (0) and yet different
    levels (GROUNDED, HANGAR), so no assignment of levels to the entries
    of that table describes [usersToAltitude]. *)
Lemma usersToAltitude_ten_entry_table_fails :
  highest_breakpoint SPEC_BREAKPOINTS 0 = Some 0
  /\ highest_breakpoint SPEC_BREAKPOINTS 5 = Some 0
  /\ Altitude.level (usersToAltitude 0) = GROUNDED
  /\ Altitude.level (usersToAltitude 5) = HANGAR
  /\ ~ (exists levelOf : Z -> AltitudeLevel,
          forall users b,
            0 <= users ->
            highest_breakpoint SPEC_BREAKPOINTS users = Some b ->
            Altitude.level (usersToAltitude users) = levelOf b).
Proof.
  repeat split; try reflexivity.
  intros [levelOf H].
  pose proof (H 0 0 ltac:(lia) eq_refl) as H0.
  pose proof (H 5 0 ltac:(lia) eq_refl) as H5.
  cbv in H0, H5. congruence.
Qed.

(** ** The stable sort and its first element *)

Section SortHead.
Context {A : Type} (key : A -> Z).

Let byKey (a b : A) : Z := key a - key b.

Lemma sort_insert_not_nil (x : A) (l : list A) : sort_insert byKey x l <> [].
Proof. destruct l as [|y l]; simpl; [|destruct (_ <=? _)]; discriminate. Qed.

Lemma Array_sort_not_nil (l : list A) : l <> [] -> Array_sort byKey l <> [].
Proof.
  destruct l as [|x l]; [congruence|]. intros _. simpl.
  apply sort_insert_not_nil.
Qed.

(** The head of the sorted array is the first element of the input with
    the least key. *)
Lemma Array_sort_head (l : list A) (b : A) (rest : list A) :
  Array_sort byKey l = b :: rest ->
  exists before after,
    l = (before ++ b :: after)%list
    /\ Forall (fun x => key b < key x) before
    /\ Forall (fun x => key b <= key x) after.
Proof.
  revert b rest. induction l as [|x l IH]; intros b rest; simpl.
  - discriminate.
  - destruct (Array_sort byKey l) as [|b' rest'] eqn:Hs.
    + simpl. intros [= <- <-].
      assert (l = []) as ->.
      { destruct l; [reflexivity|].
        exfalso. apply (Array_sort_not_nil (a :: l)); [discriminate|exact Hs]. }
      exists [], []. repeat split; constructor.
    + destruct (IH b' rest' eq_refl) as (before & after & -> & Hb & Ha).
      simpl. unfold byKey at 1.
      destruct (Z.leb_spec (key x - key b') 0) as [Hle|Hgt].
      * intros [= <- <-]. exists [], (before ++ b' :: after)%list.
        repeat split; [constructor|].
        apply Forall_app. split.
        -- eapply Forall_impl; [|exact Hb]. simpl. intros; lia.
        -- constructor; [lia|].
           eapply Forall_impl; [|exact Ha]. simpl. intros; lia.
      * intros [= <- <-]. exists (x :: before), after.
        repeat split; [|assumption].
        constructor; [lia|assumption].
Qed.
End SortHead.

(** ** Sums and the health multiplier *)

Lemma fold_left_add_acc (l : list Z) (acc : Z) :
  fold_left Z.add l acc = acc + fold_left Z.add l 0.
Proof.
  revert acc. induction l as [|y ys IH]; intros acc; simpl; [lia|].
  rewrite IH, (IH y). lia.
Qed.

Lemma sum_Z_cons (x : Z) (l : list Z) : sum_Z (x :: l) = x + sum_Z l.
Proof. unfold sum_Z. simpl. apply fold_left_add_acc. Qed.

Lemma fold_left_score_acc (l : list CategoryResult.t) (acc : Z) :
  fold_left (fun sum c => sum + CategoryResult.score c) l acc
  = acc + sum_Z (map CategoryResult.score l).
Proof.
  revert acc. induction l as [|c l IH]; intros acc; simpl.
  - unfold sum_Z. simpl. lia.
  - rewrite IH, sum_Z_cons. lia.
Qed.

Lemma sum_scores_bounds (l : list CategoryResult.t) :
  Forall (fun c => 0 <= CategoryResult.score c <= 100) l ->
  0 <= sum_Z (map CategoryResult.score l) <= 100 * Z.of_nat (List.length l).
Proof.
  induction 1 as [|c l Hc _ IH]; simpl map.
  - cbv. split; discriminate.
  - rewrite sum_Z_cons. simpl List.length. lia.
Qed.

(** [floor(c * ((s / n) / 100))] in integer arithmetic. *)
Lemma floor_health (c s : Z) (n : positive) :
  Math_floor (inject_Z c * ((inject_Z s / inject_Z (Zpos n)) / inject_Z 100))%Q
  = (c * s) / (100 * Zpos n).
Proof.
  unfold Math_floor.
  assert ((inject_Z c * ((inject_Z s / inject_Z (Zpos n)) / inject_Z 100))%Q
          == (c * s) # (100 * n))%Q as E.
  { rewrite (Qmake_Qdiv (c * s) (100 * n)).
    rewrite Pos2Z.inj_mul. rewrite !inject_Z_mult.
    field. unfold Qeq. simpl. lia. }
  rewrite E. reflexivity.
Qed.

Lemma effectiveUsers_div (categories : list CategoryResult.t) (ceiling : Z) :
  categories <> [] ->
  Math_floor (inject_Z ceiling * (avgScore categories / inject_Z 100))%Q
  = (ceiling * sum_Z (map CategoryResult.score categories))
    / (100 * Z.of_nat (List.length categories)).
Proof.
  destruct categories as [|c l]; [congruence|]. intros _.
  unfold avgScore. rewrite fold_left_score_acc, Z.add_0_l.
  change (Z.of_nat (List.length (c :: l)))
    with (Zpos (Pos.of_succ_nat (List.length l))).
  apply floor_health.
Qed.

(** ** [calculateAltitude] *)

Section CalculateAltitudeFacts.
Context {NextLevel : Type}.
Variable calculateNextLevel : Z -> list CategoryResult.t -> NextLevel.

(** On a non-empty array the report exists; its bottleneck is the first
    entry of the array with the least [maxUsers]. *)
Lemma calculateAltitude_some (categories : list CategoryResult.t) :
  categories <> [] ->
  exists b before after,
    categories = (before ++ b :: after)%list
    /\ Forall (fun c => CategoryResult.maxUsers b < CategoryResult.maxUsers c) before
    /\ Forall (fun c => CategoryResult.maxUsers b <= CategoryResult.maxUsers c) after
    /\ calculateAltitude calculateNextLevel categories
       = Some
           (let effectiveUsers :=
              Math_floor (inject_Z (CategoryResult.maxUsers b)
                          * (avgScore categories / inject_Z 100))%Q in
            mkAltitudeReport
              (Altitude.value (usersToAltitude effectiveUsers))
              (Altitude.level (usersToAltitude effectiveUsers))
              effectiveUsers
              (CategoryResult.with_bottleneck b true)
              (map (fun c =>
                      CategoryResult.with_bottleneck c
                        (Category_eqb (CategoryResult.category c)
                                      (CategoryResult.category b)))
                   categories)
              (calculateNextLevel effectiveUsers categories)).
Proof.
  intros Hne. unfold calculateAltitude.
  destruct (Array_sort _ categories) as [|b rest] eqn:Hs.
  - exfalso. revert Hs. apply (Array_sort_not_nil CategoryResult.maxUsers).
    exact Hne.
  - destruct (Array_sort_head CategoryResult.maxUsers categories b rest Hs)
      as (before & after & Hl & Hb & Ha).
    exists b, before, after. repeat split; assumption.
Qed.

Lemma first_minimum_is_minimum (b : CategoryResult.t)
      (before after : list CategoryResult.t) :
  Forall (fun c => CategoryResult.maxUsers b < CategoryResult.maxUsers c) before ->
  Forall (fun c => CategoryResult.maxUsers b <= CategoryResult.maxUsers c) after ->
  Forall (fun c => CategoryResult.maxUsers b <= CategoryResult.maxUsers c)
         (before ++ b :: after)%list.
Proof.
  intros Hb Ha. apply Forall_app. split.
  - eapply Forall_impl; [|exact Hb]. simpl. intros; lia.
  - constructor; [lia|assumption].
Qed.
End CalculateAltitudeFacts.

(** ** Rounding to binary64 *)

(** Rounding to the nearest integer moves a number by at most one half. *)
Lemma round_half_even_error (x : Q) :
  (x - (1 # 2) <= inject_Z (round_half_even x) <= x + (1 # 2))%Q.
Proof.
  unfold round_half_even.
  pose proof (Qfloor_le x) as Hlo. pose proof (Qlt_floor x) as Hhi.
  rewrite inject_Z_plus in Hhi. change (inject_Z 1) with 1%Q in Hhi.
  destruct (Qcompare_spec (x - inject_Z (Qfloor x)) (1 # 2)) as [E|E|E].
  - destruct (Z.even (Qfloor x)); rewrite ?inject_Z_plus;
      change (inject_Z 1) with 1%Q; lra.
  - lra.
  - rewrite inject_Z_plus. change (inject_Z 1) with 1%Q. lra.
Qed.

Lemma two_pow_pos (z : Z) : (0 < 2 ^ z)%Q.
Proof. apply Qpower_0_lt. reflexivity. Qed.

Lemma exponent64_lower (x : Q) :
  (0 < x)%Q -> (2 ^ (exponent64 x + 52) <= x)%Q.
Proof.
  intros Hx. unfold exponent64. destruct x as [p q]. cbn [Qnum Qden].
  set (lp := Z.log2 p). set (lq := Z.log2 (Zpos q)).
  destruct (Qle_bool (2 ^ (lp - lq)) (p # q)) eqn:E.
  - apply Qle_bool_iff in E. replace (lp - lq - 52 + 52) with (lp - lq) by lia.
    exact E.
  - replace (lp - lq - 53 + 52) with (lp - (lq + 1)) by lia.
    assert (0 < p) as Hp.
    { unfold Qlt in Hx. simpl in Hx. lia. }
    pose proof (Z.log2_spec p Hp) as [Hp1 _].
    pose proof (Z.log2_spec (Zpos q) (Pos2Z.is_pos q)) as [_ Hq2].
    pose proof (Z.log2_nonneg p) as Hlp.
    pose proof (Z.log2_nonneg (Zpos q)) as Hlq.
    fold lp in Hp1, Hlp. fold lq in Hq2, Hlq.
    replace (Z.succ lq) with (lq + 1) in Hq2 by lia.
    rewrite Qpower_minus by discriminate.
    rewrite <- !(Zpower_Qpower 2) by lia.
    rewrite (Qmake_Qdiv p q).
    assert (0 < 2 ^ (lq + 1)) as Hpow by (apply Z.pow_pos_nonneg; lia).
    apply Qle_shift_div_l; [unfold Qlt; simpl; lia|].
    unfold Qdiv. rewrite <- Qmult_assoc.
    rewrite (Qmult_comm (/ _)).
    rewrite Qmult_assoc.
    apply Qle_shift_div_r; [rewrite <- (Zlt_Qlt 0); exact Hpow|].
    rewrite <- !inject_Z_mult. rewrite <- Zle_Qle. nia.
Qed.

Lemma round64_error_pos (x : Q) :
  (0 < x)%Q ->
  (x * (1 - eps64) <= round64 x <= x * (1 + eps64))%Q.
Proof.
  intros Hx. unfold round64.
  destruct (Qcompare_spec x 0) as [E|E|E]; [lra|lra|]. cbv zeta.
  set (e := exponent64 x).
  pose proof (exponent64_lower x Hx) as Hlow. fold e in Hlow.
  pose proof (two_pow_pos e) as HP.
  rewrite Qpower_plus in Hlow by discriminate.
  pose proof (round_half_even_error (x * 2 ^ (- e))) as [Hm1 Hm2].
  assert (2 ^ (- e) * 2 ^ e == 1)%Q as Hinv.
  { rewrite Qpower_opp. field. lra. }
  set (P := (2 ^ e)%Q) in *. set (Pinv := (2 ^ (- e))%Q) in *.
  set (m := inject_Z (round_half_even (x * Pinv))) in *.
  change (2 ^ 52)%Q with (4503599627370496 # 1)%Q in Hlow.
  unfold eps64.
  assert (x * Pinv * P == x)%Q as Hxp.
  { rewrite <- Qmult_assoc, Hinv. ring. }
  assert ((x * Pinv - (1 # 2)) * P <= m * P)%Q as H1
      by (apply Qmult_le_compat_r; lra).
  assert (m * P <= (x * Pinv + (1 # 2)) * P)%Q as H2
      by (apply Qmult_le_compat_r; lra).
  lra.
Qed.

Lemma round64_error (x : Q) :
  (0 <= x)%Q ->
  (x * (1 - eps64) <= round64 x <= x * (1 + eps64))%Q.
Proof.
  intros Hx. destruct (Qcompare_spec x 0) as [E|E|E].
  - assert (round64 x = 0%Q) as ->.
    { unfold round64. rewrite (proj1 (Qeq_alt x 0) E). reflexivity. }
    rewrite E. lra.
  - lra.
  - apply round64_error_pos. exact E.
Qed.

Lemma triple_rounding (A c a b p : Q) :
  (0 <= A)%Q -> (0 <= c)%Q ->
  (A * (1 - eps64) <= a <= A * (1 + eps64))%Q ->
  (a * (1 # 100) * (1 - eps64) <= b <= a * (1 # 100) * (1 + eps64))%Q ->
  (c * b * (1 - eps64) <= p <= c * b * (1 + eps64))%Q ->
  (c * A * (1 # 100) * (1 - 4 * eps64) <= p
   <= c * A * (1 # 100) * (1 + 4 * eps64))%Q.
Proof.
  intros HA Hc [Ha1 Ha2] [Hb1 Hb2] [Hp1 Hp2].
  assert (0 <= eps64 <= 1 # 4)%Q as Heps by (unfold eps64; split; discriminate).
  revert Ha1 Ha2 Hb1 Hb2 Hp1 Hp2 Heps.
  generalize eps64. intros eps Ha1 Ha2 Hb1 Hb2 Hp1 Hp2 [He0 He1].
  assert (0 <= A * eps)%Q as HAe by (apply Qmult_le_0_compat; assumption).
  assert (0 <= a)%Q as Ha0.
  { assert (0 <= A * ((1 # 4) - eps))%Q by (apply Qmult_le_0_compat; lra). lra. }
  assert (0 <= b)%Q as Hb0.
  { assert (0 <= a * ((1 # 4) - eps))%Q by (apply Qmult_le_0_compat; lra). lra. }
  assert (0 <= c * b)%Q as Hcb0 by (apply Qmult_le_0_compat; assumption).
  assert (0 <= c * A)%Q as HcA by (apply Qmult_le_0_compat; assumption).
  (* upper bound *)
  assert (0 <= (A * (1 + eps) - a) * (1 + eps))%Q as U1
      by (apply Qmult_le_0_compat; lra).
  assert (0 <= c * ((A * (1 + eps) * (1 # 100) * (1 + eps)) - b))%Q as U2
      by (apply Qmult_le_0_compat; lra).
  assert (0 <= (c * (A * (1 + eps) * (1 # 100) * (1 + eps)) - c * b) * (1 + eps))%Q
    as U3 by (apply Qmult_le_0_compat; lra).
  assert (0 <= c * A * eps)%Q as E1 by (apply Qmult_le_0_compat; lra).
  assert (0 <= c * A * eps * ((1 # 4) - eps))%Q as E2
      by (apply Qmult_le_0_compat; lra).
  assert (0 <= c * A * eps * eps)%Q as E3 by (apply Qmult_le_0_compat; lra).
  assert (0 <= c * A * eps * eps * ((1 # 4) - eps))%Q as E4
      by (apply Qmult_le_0_compat; lra).
  assert (0 <= c * A * eps * eps * eps)%Q as E5 by (apply Qmult_le_0_compat; lra).
  (* lower bound *)
  assert (0 <= (a - A * (1 - eps)) * (1 - eps))%Q as L1
      by (apply Qmult_le_0_compat; lra).
  assert (0 <= c * (b - (A * (1 - eps) * (1 # 100) * (1 - eps))))%Q as L2
      by (apply Qmult_le_0_compat; lra).
  assert (0 <= (c * b - c * (A * (1 - eps) * (1 # 100) * (1 - eps))) * (1 - eps))%Q
    as L3 by (apply Qmult_le_0_compat; lra).
  split; lra.
Qed.

Lemma floor_near (N D : Z) (p : Q) :
  0 < D -> 0 <= N ->
  (inject_Z N - 1 < p * inject_Z D)%Q ->
  (p * inject_Z D < inject_Z N + 1)%Q ->
  N / D - 1 <= Qfloor p <= N / D
  /\ (N mod D <> 0 -> Qfloor p = N / D).
Proof.
  intros HD HN Hlo Hhi.
  pose proof (Z.div_mod N D ltac:(lia)) as Hdm.
  pose proof (Z.mod_pos_bound N D HD) as Hr.
  set (k := N / D) in *. set (r := N mod D) in *.
  assert (0 < inject_Z D)%Q as HDq by (rewrite <- (Zlt_Qlt 0); exact HD).
  assert (inject_Z (k - 1) < p)%Q as Hp1.
  { apply (Qmult_lt_r _ _ (inject_Z D) HDq).
    eapply Qle_lt_trans; [|exact Hlo].
    rewrite <- inject_Z_mult. change 1%Q with (inject_Z 1). unfold Qminus.
    rewrite <- inject_Z_opp, <- inject_Z_plus, <- Zle_Qle. nia. }
  assert (p < inject_Z (k + 1))%Q as Hp2.
  { apply (Qmult_lt_r _ _ (inject_Z D) HDq).
    eapply Qlt_le_trans; [exact Hhi|].
    rewrite <- inject_Z_mult. change 1%Q with (inject_Z 1).
    rewrite <- inject_Z_plus, <- Zle_Qle. nia. }
  assert (k - 1 <= Qfloor p) as Hf1.
  { rewrite <- (Qfloor_Z (k - 1)). apply Qfloor_resp_le. apply Qlt_le_weak, Hp1. }
  assert (Qfloor p <= k) as Hf2.
  { assert (inject_Z (Qfloor p) < inject_Z (k + 1))%Q as H
        by (eapply Qle_lt_trans; [apply Qfloor_le|exact Hp2]).
    rewrite <- Zlt_Qlt in H. lia. }
  split; [split; assumption|].
  intros Hrne.
  assert (inject_Z k <= p)%Q as Hp3.
  { apply Qlt_le_weak. apply (Qmult_lt_r _ _ (inject_Z D) HDq).
    eapply Qle_lt_trans; [|exact Hlo].
    rewrite <- inject_Z_mult. change 1%Q with (inject_Z 1). unfold Qminus.
    rewrite <- inject_Z_opp, <- inject_Z_plus, <- Zle_Qle. nia. }
  assert (k <= Qfloor p).
  { rewrite <- (Qfloor_Z k). apply Qfloor_resp_le. exact Hp3. }
  lia.
Qed.

(** An integer is its own rounding. *)
Lemma round_half_even_Z (x : Q) (m : Z) :
  (x == inject_Z m)%Q -> round_half_even x = m.
Proof.
  intros E. unfold round_half_even.
  assert (Qfloor x = m) as -> by (rewrite E; apply Qfloor_Z).
  destruct (Qcompare_spec (x - inject_Z m) (1 # 2)) as [H|H|H]; [lra|reflexivity|lra].
Qed.

(** Integers below 2^53 are binary64 numbers. *)
Lemma round64_integer (x : Q) (z : Z) :
  (x == inject_Z z)%Q -> 0 <= z < 2 ^ 53 -> (round64 x == inject_Z z)%Q.
Proof.
  intros E [Hz0 Hz1]. unfold round64.
  destruct (Qcompare_spec x 0) as [H|H|H].
  - rewrite <- E, H. reflexivity.
  - exfalso. rewrite E in H. change 0%Q with (inject_Z 0) in H.
    rewrite <- Zlt_Qlt in H. lia.
  - cbv zeta. pose proof (exponent64_lower x H) as Hlow.
    set (e := exponent64 x) in *.
    assert (e <= 0) as He.
    { destruct (Z.le_gt_cases e 0) as [|Hpos]; [assumption|exfalso].
      assert (2 ^ 53 <= 2 ^ (e + 52))%Q as Hmono.
      { rewrite <- !(Zpower_Qpower 2) by lia. rewrite <- Zle_Qle.
        apply Z.pow_le_mono_r; lia. }
      assert (inject_Z z < inject_Z (2 ^ 53))%Q as Hlt by (rewrite <- Zlt_Qlt; exact Hz1).
      rewrite (Zpower_Qpower 2 53) in Hlt by lia.
      change (inject_Z 2) with 2%Q in Hlt.
      rewrite E in Hlow. lra. }
    assert (2 ^ (- e) == inject_Z (2 ^ (- e)))%Q as Hpow.
    { rewrite (Zpower_Qpower 2) by lia. reflexivity. }
    rewrite (round_half_even_Z _ (z * 2 ^ (- e))).
    + rewrite inject_Z_mult, <- Hpow, <- Qmult_assoc.
      assert (2 ^ (- e) * 2 ^ e == 1)%Q as ->.
      { rewrite Qpower_opp. field. pose proof (two_pow_pos e). lra. }
      ring.
    + rewrite inject_Z_mult, <- Hpow, E. reflexivity.
Qed.

(** With [exponent64_lower]: the scaled significand lies in
    [2^52, 2^53). *)
Lemma exponent64_upper (x : Q) :
  (0 < x)%Q -> (x < 2 ^ (exponent64 x + 53))%Q.
Proof.
  intros Hx. unfold exponent64. destruct x as [p q]. cbn [Qnum Qden].
  set (lp := Z.log2 p). set (lq := Z.log2 (Zpos q)).
  destruct (Qle_bool (2 ^ (lp - lq)) (p # q)) eqn:E.
  - replace (lp - lq - 52 + 53) with ((lp + 1) - lq) by lia.
    assert (0 < p) as Hp. { unfold Qlt in Hx. simpl in Hx. lia. }
    pose proof (Z.log2_spec p Hp) as [_ Hp2].
    pose proof (Z.log2_spec (Zpos q) (Pos2Z.is_pos q)) as [Hq1 _].
    pose proof (Z.log2_nonneg p) as Hlp.
    pose proof (Z.log2_nonneg (Zpos q)) as Hlq.
    fold lp in Hp2, Hlp. fold lq in Hq1, Hlq.
    replace (Z.succ lp) with (lp + 1) in Hp2 by lia.
    rewrite Qpower_minus by discriminate.
    rewrite <- !(Zpower_Qpower 2) by lia.
    rewrite (Qmake_Qdiv p q).
    assert (0 < 2 ^ lq) as Hpow by (apply Z.pow_pos_nonneg; lia).
    apply Qlt_shift_div_r; [unfold Qlt; simpl; lia|].
    unfold Qdiv. rewrite <- Qmult_assoc.
    rewrite (Qmult_comm (/ _)). rewrite Qmult_assoc.
    apply Qlt_shift_div_l; [rewrite <- (Zlt_Qlt 0); exact Hpow|].
    rewrite <- !inject_Z_mult. rewrite <- Zlt_Qlt. nia.
  - replace (lp - lq - 53 + 53) with (lp - lq) by lia.
    apply Qnot_le_lt. intros H. apply Qle_bool_iff in H. congruence.
Qed.

Lemma two_pow_le (a b : Z) : a <= b -> (2 ^ a <= 2 ^ b)%Q.
Proof.
  intros H. replace b with (a + (b - a)) by lia.
  rewrite Qpower_plus by discriminate.
  assert (1 <= 2 ^ (b - a))%Q as H1.
  { rewrite <- (Zpower_Qpower 2) by lia. change 1%Q with (inject_Z 1).
    rewrite <- Zle_Qle. pose proof (Z.pow_pos_nonneg 2 (b - a)). lia. }
  pose proof (two_pow_pos a) as Ha.
  assert (0 <= 2 ^ a * (2 ^ (b - a) - 1))%Q by (apply Qmult_le_0_compat; lra).
  lra.
Qed.

Lemma exponent64_unique (x : Q) (e : Z) :
  (2 ^ (e + 52) <= x)%Q -> (x < 2 ^ (e + 53))%Q -> exponent64 x = e.
Proof.
  intros Hlo Hhi.
  assert (0 < x)%Q as Hx by (pose proof (two_pow_pos (e + 52)); lra).
  pose proof (exponent64_lower x Hx) as Hlo'.
  pose proof (exponent64_upper x Hx) as Hhi'.
  set (e' := exponent64 x) in *.
  destruct (Z.lt_trichotomy e' e) as [H|[H|H]]; [exfalso|exact H|exfalso].
  - pose proof (two_pow_le (e' + 53) (e + 52) ltac:(lia)). lra.
  - pose proof (two_pow_le (e + 53) (e' + 52) ltac:(lia)). lra.
Qed.

Lemma exponent64_comp (x y : Q) :
  (0 < x)%Q -> (x == y)%Q -> exponent64 x = exponent64 y.
Proof.
  intros Hx E. symmetry. apply exponent64_unique.
  - rewrite <- E. apply exponent64_lower, Hx.
  - rewrite <- E. apply exponent64_upper, Hx.
Qed.

Lemma round_half_even_comp (x y : Q) :
  (x == y)%Q -> round_half_even x = round_half_even y.
Proof.
  intros E. unfold round_half_even.
  rewrite (Qfloor_comp _ _ E).
  assert ((x - inject_Z (Qfloor y) ?= 1 # 2) = (y - inject_Z (Qfloor y) ?= 1 # 2))%Q
    as -> by (apply Qcompare_comp; [rewrite E; reflexivity|reflexivity]).
  reflexivity.
Qed.

(** [round64] does not depend on the fraction that represents its
    argument. *)
Lemma round64_comp (x y : Q) : (x == y)%Q -> (round64 x == round64 y)%Q.
Proof.
  intros E. unfold round64.
  assert ((x ?= 0) = (y ?= 0))%Q as Hc
      by (apply Qcompare_comp; [exact E|reflexivity]).
  rewrite <- Hc.
  destruct (Qcompare_spec x 0) as [H|H|H]; [reflexivity| |]; cbv zeta.
  - assert (0 < - x)%Q as Hx by lra.
    assert (- x == - y)%Q as E' by (rewrite E; reflexivity).
    rewrite <- (exponent64_comp _ _ Hx E').
    rewrite (round_half_even_comp (- x * _) (- y * 2 ^ (- exponent64 (- x))))
      by (apply Qmult_comp; [exact E'|reflexivity]).
    reflexivity.
  - rewrite <- (exponent64_comp _ _ H E).
    rewrite (round_half_even_comp (x * _) (y * 2 ^ (- exponent64 x)))
      by (apply Qmult_comp; [exact E|reflexivity]).
    reflexivity.
Qed.

(** The rounded additions of the scores are exact while the sum stays
    below 2^53. *)
Lemma score_sum_binary64_exact (l : list CategoryResult.t) (acc : Q) (a : Z) :
  (acc == inject_Z a)%Q -> 0 <= a ->
  Forall (fun c => 0 <= CategoryResult.score c <= 100) l ->
  a + 100 * Z.of_nat (List.length l) < 2 ^ 53 ->
  (fold_left (fun sum c => round64 (sum + inject_Z (CategoryResult.score c))) l acc
   == inject_Z (a + sum_Z (map CategoryResult.score l)))%Q.
Proof.
  intros E Ha Hscores. revert acc a E Ha.
  induction Hscores as [|c l Hc _ IH]; intros acc a E Ha Hbound.
  - simpl. unfold sum_Z. simpl. rewrite Z.add_0_r. exact E.
  - simpl fold_left. simpl map. rewrite sum_Z_cons.
    simpl List.length in Hbound.
    rewrite (IH _ (a + CategoryResult.score c)).
    + rewrite Z.add_assoc. reflexivity.
    + apply round64_integer; [|lia].
      rewrite E, inject_Z_plus. reflexivity.
    + lia.
    + lia.
Qed.

Lemma avgScore_binary64_exact (categories : list CategoryResult.t) :
  Forall (fun c => 0 <= CategoryResult.score c <= 100) categories ->
  100 * Z.of_nat (List.length categories) < 2 ^ 53 ->
  (avgScore_binary64 categories
   == round64 (inject_Z (sum_Z (map CategoryResult.score categories))
               / inject_Z (Z.of_nat (List.length categories))))%Q.
Proof.
  intros Hscores Hbound. unfold avgScore_binary64.
  apply round64_comp. apply Qdiv_comp; [|reflexivity].
  rewrite (score_sum_binary64_exact categories 0 0);
    [reflexivity|reflexivity|lia|exact Hscores|lia].
Qed.

(** The effective users of the source, additions included, from the
    integer sum. *)
Lemma effectiveUsers_binary64_of_avgScore
      (categories : list CategoryResult.t) (c : Z) :
  Forall (fun c => 0 <= CategoryResult.score c <= 100) categories ->
  100 * Z.of_nat (List.length categories) < 2 ^ 53 ->
  Math_floor (round64 (inject_Z c
                       * round64 (avgScore_binary64 categories / inject_Z 100)))%Q
  = effectiveUsers_binary64 c (sum_Z (map CategoryResult.score categories))
                            (Z.of_nat (List.length categories)).
Proof.
  intros Hscores Hbound. unfold effectiveUsers_binary64, Math_floor. cbv zeta.
  apply Qfloor_comp. apply round64_comp.
  apply Qmult_comp; [reflexivity|].
  apply round64_comp. apply Qdiv_comp; [|reflexivity].
  apply avgScore_binary64_exact; assumption.
Qed.

(** The effective users in binary64 against the exact quotient
    [(c * s) div (100 * n)]: the three roundings move the product by less
    than [1 / (100 * n)], so the floor is the exact quotient, or one less
    when [c * s / (100 * n)] is a whole number. *)
Lemma effectiveUsers_binary64_bounds (c s n : Z) :
  0 <= c -> 0 <= s -> 0 < n -> 4 * (c * s) < 2 ^ 53 ->
  (c * s) / (100 * n) - 1 <= effectiveUsers_binary64 c s n <= (c * s) / (100 * n)
  /\ ((c * s) mod (100 * n) <> 0 ->
      effectiveUsers_binary64 c s n = (c * s) / (100 * n))
  /\ 0 <= effectiveUsers_binary64 c s n.
Proof.
  intros Hc Hs Hn Hrange. unfold effectiveUsers_binary64, Math_floor. cbv zeta.
  set (A := (inject_Z s / inject_Z n)%Q).
  assert (0 < inject_Z n)%Q as Hnq by (rewrite <- (Zlt_Qlt 0); exact Hn).
  assert (0 <= inject_Z s)%Q as Hsq by (rewrite <- (Zle_Qle 0); exact Hs).
  assert (0 <= inject_Z c)%Q as Hcq by (rewrite <- (Zle_Qle 0); exact Hc).
  assert (0 <= A)%Q as HA.
  { unfold A. apply Qle_shift_div_l; [exact Hnq|]. lra. }
  pose proof (round64_error A HA) as Ha.
  set (a := round64 A) in *.
  change (a / inject_Z 100)%Q with (a * (1 # 100))%Q.
  assert (0 <= a)%Q as Ha0.
  { assert (0 <= A * (1 - eps64))%Q
      by (apply Qmult_le_0_compat; [exact HA|unfold eps64; discriminate]).
    lra. }
  assert (0 <= a * (1 # 100))%Q as HB by lra.
  pose proof (round64_error _ HB) as Hb.
  set (b := round64 (a * (1 # 100))) in *.
  assert (0 <= b)%Q as Hb0.
  { assert (0 <= a * (1 # 100) * (1 - eps64))%Q
      by (apply Qmult_le_0_compat; [exact HB|unfold eps64; discriminate]).
    lra. }
  assert (0 <= inject_Z c * b)%Q as HP by (apply Qmult_le_0_compat; assumption).
  pose proof (round64_error _ HP) as Hp.
  set (p := round64 (inject_Z c * b)) in *.
  assert (0 <= p)%Q as Hp0.
  { assert (0 <= inject_Z c * b * (1 - eps64))%Q
      by (apply Qmult_le_0_compat; [exact HP|unfold eps64; discriminate]).
    lra. }
  assert (0 <= Qfloor p) as Hfloor0.
  { rewrite <- (Qfloor_Z 0). apply Qfloor_resp_le. exact Hp0. }
  pose proof (triple_rounding A (inject_Z c) a b p HA Hcq Ha Hb Hp) as [Hlo Hhi].
  assert (inject_Z c * A * (1 # 100) * inject_Z (100 * n) == inject_Z (c * s))%Q
    as HE.
  { unfold A. rewrite !inject_Z_mult. change (inject_Z 100) with (100 # 1)%Q.
    field. lra. }
  assert (0 < inject_Z (100 * n))%Q as HDq by (rewrite <- (Zlt_Qlt 0); lia).
  assert (0 <= inject_Z (c * s))%Q as HNq by (rewrite <- (Zle_Qle 0); nia).
  assert (inject_Z (4 * (c * s)) < inject_Z (2 ^ 53))%Q as Hr
      by (rewrite <- Zlt_Qlt; exact Hrange).
  rewrite inject_Z_mult in Hr.
  change (inject_Z 4) with 4%Q in Hr.
  change (inject_Z (2 ^ 53)) with (9007199254740992 # 1)%Q in Hr.
  pose proof (Qmult_le_compat_r _ _ (inject_Z (100 * n)) Hlo (Qlt_le_weak _ _ HDq))
    as Hlo'.
  pose proof (Qmult_le_compat_r _ _ (inject_Z (100 * n)) Hhi (Qlt_le_weak _ _ HDq))
    as Hhi'.
  unfold eps64 in Hlo', Hhi'.
  assert ((c * s) / (100 * n) - 1 <= Qfloor p <= (c * s) / (100 * n)
          /\ ((c * s) mod (100 * n) <> 0 -> Qfloor p = (c * s) / (100 * n)))
    as [Hnear Hexact].
  { apply floor_near; [lia|nia| |].
    - set (D := inject_Z (100 * n)) in *. set (N := inject_Z (c * s)) in *.
      set (E := (inject_Z c * A * (1 # 100))%Q) in *. lra.
    - set (D := inject_Z (100 * n)) in *. set (N := inject_Z (c * s)) in *.
      set (E := (inject_Z c * A * (1 # 100))%Q) in *. lra. }
  split; [exact Hnear|]. split; [exact Hexact|exact Hfloor0].
Qed.

(** [round64] on values whose binary64 image is known: 29/100 becomes
    5224175567749775 / 2^54, 0.5 and 59.5 are binary64 numbers, and
    100 * 0.29 computed in binary64 lies below 29. *)
Example round64_values :
  Qred (round64 (29 # 100)) = (5224175567749775 # 18014398509481984)%Q
  /\ Qred (round64 (1 # 2)) = (1 # 2)%Q
  /\ Qred (round64 (119 # 2)) = (119 # 2)%Q
  /\ Qred (round64 (- (29 # 100))) = (- (5224175567749775 # 18014398509481984))%Q
  /\ (round64 (100 * round64 (29 # 100)) < 29)%Q.
Proof. repeat split; vm_compute; reflexivity. Qed.

(** [effectiveUsers_binary64] and the primitive binary64 operations agree
    on the inputs used below, on a range of ceilings with a mean that is
    not a binary64 number, and on zero. *)
Example effectiveUsers_binary64_agrees_with_float :
  Forall (fun '(c, s, n) =>
            effectiveUsers_float c s n = Some (effectiveUsers_binary64 c s n))
         [ (100, 29, 1); (120, 250, 3); (50, 119, 2); (10000000, 100, 1);
           (10, 250, 3); (50, 250, 3); (100, 250, 3); (500, 250, 3);
           (1000, 250, 3); (5000, 250, 3); (10000, 250, 3); (50000, 250, 3);
           (100000, 250, 3); (500000, 250, 3); (1000000, 250, 3);
           (5000000, 250, 3); (10000000, 250, 3);
           (100, 57, 1); (100, 58, 1); (1000, 1151, 12); (7, 1100, 12);
           (0, 50, 1); (100, 0, 3) ].
Proof. repeat constructor; vm_compute; reflexivity. Qed.

(** ** [calculateAltitude_binary64] *)

Section CalculateAltitudeBinary64Facts.
Context {NextLevel : Type}.
Variable calculateNextLevel : Z -> list CategoryResult.t -> NextLevel.

(** On a non-empty array the report exists; its bottleneck is the first
    entry of the array with the least [maxUsers]. *)
Lemma calculateAltitude_binary64_some (categories : list CategoryResult.t) :
  categories <> [] ->
  exists b before after,
    categories = (before ++ b :: after)%list
    /\ Forall (fun c => CategoryResult.maxUsers b < CategoryResult.maxUsers c) before
    /\ Forall (fun c => CategoryResult.maxUsers b <= CategoryResult.maxUsers c) after
    /\ calculateAltitude_binary64 calculateNextLevel categories
       = Some
           (let effectiveUsers :=
              Math_floor
                (round64 (inject_Z (CategoryResult.maxUsers b)
                          * round64 (avgScore_binary64 categories / inject_Z 100)))%Q in
            mkAltitudeReport
              (Altitude.value (usersToAltitude effectiveUsers))
              (Altitude.level (usersToAltitude effectiveUsers))
              effectiveUsers
              (CategoryResult.with_bottleneck b true)
              (map (fun c =>
                      CategoryResult.with_bottleneck c
                        (Category_eqb (CategoryResult.category c)
                                      (CategoryResult.category b)))
                   categories)
              (calculateNextLevel effectiveUsers categories)).
Proof.
  intros Hne. unfold calculateAltitude_binary64.
  destruct (Array_sort _ categories) as [|b rest] eqn:Hs.
  - exfalso. revert Hs. apply (Array_sort_not_nil CategoryResult.maxUsers).
    exact Hne.
  - destruct (Array_sort_head CategoryResult.maxUsers categories b rest Hs)
      as (before & after & Hl & Hb & Ha).
    exists b, before, after. repeat split; assumption.
Qed.

(** Rounding touches the user count only: failure, the bottleneck and the
    flagged categories are those of the exact-arithmetic
    [calculateAltitude]. *)
Lemma calculateAltitude_binary64_bottleneck (results : list CategoryResult.t) :
  option_map (fun r => (bottleneck r, categories r))
             (calculateAltitude_binary64 calculateNextLevel results)
  = option_map (fun r => (bottleneck r, categories r))
               (calculateAltitude calculateNextLevel results).
Proof.
  unfold calculateAltitude_binary64, calculateAltitude.
  destruct (Array_sort _ results); reflexivity.
Qed.
End CalculateAltitudeBinary64Facts.

(** For one category with score 29 and ceiling 100 the code reports 28
    users, one less than the exact quotient 100 * 29 / 100 = 29 that
    [calculateAltitude] gives. *)
Example calculateAltitude_binary64_single_score_29 :
  option_map maxConcurrentUsers
    (calculateAltitude_binary64 (fun _ _ => tt) single_score_29) = Some 28
  /\ option_map maxConcurrentUsers
       (calculateAltitude (fun _ _ => tt) single_score_29) = Some 29.
Proof. split; vm_compute; reflexivity. Qed.

(** For scores 50, 100 and 100 and least ceiling 120 the code reports 99
    users and the level RUNWAY; in exact arithmetic 120 * 250 / 300 = 100
    and the level is TAKEOFF. *)
Example calculateAltitude_binary64_mean_250_thirds :
  option_map (fun r => (maxConcurrentUsers r, altitudeLevel r))
    (calculateAltitude_binary64 (fun _ _ => tt) mean_250_thirds)
  = Some (99, RUNWAY)
  /\ option_map (fun r => (maxConcurrentUsers r, altitudeLevel r))
       (calculateAltitude (fun _ _ => tt) mean_250_thirds)
     = Some (100, TAKEOFF).
Proof. split; vm_compute; reflexivity. Qed.

(** Where the exact quotient is a whole number the code may also reach
    it: a perfect score returns the ceiling itself. *)
Example calculateAltitude_binary64_perfect_score :
  option_map maxConcurrentUsers
    (calculateAltitude_binary64 (fun _ _ => tt)
       [ CategoryResult.mk security 100 10000000 false [] ])
  = Some 10000000.
Proof. vm_compute. reflexivity. Qed.

(** C1, as the code has it: on a non-empty array of n < 2^32 categories
    (the length limit of an array) with scores in [0,100], non-negative
    ceilings and a least ceiling c with 400 * c * n < 2^53, the
    effective-user count is the floor of c * ((sum / n) / 100) computed
    in binary64 from the unrounded mean of the scores.  It is the exact
    quotient (c * sum) div (100 * n) or one less, and it is the exact
    quotient whenever 100 * n does not divide c * sum; it lies between 0
    and the bottleneck's ceiling c, which is the least ceiling. *)
Theorem calculateAltitude_binary64_effective_users
        {NextLevel : Type}
        (calculateNextLevel : Z -> list CategoryResult.t -> NextLevel)
        (categories : list CategoryResult.t)
        (Hnonempty : categories <> [])
        (Hscores : Forall (fun c => 0 <= CategoryResult.score c <= 100) categories)
        (Hceilings : Forall (fun c => 0 <= CategoryResult.maxUsers c) categories)
        (Hlength : Z.of_nat (List.length categories) < 2 ^ 32)
        (Hrange : Exists (fun c => 400 * CategoryResult.maxUsers c
                                   * Z.of_nat (List.length categories) < 2 ^ 53)
                         categories) :
  exists report b,
    calculateAltitude_binary64 calculateNextLevel categories = Some report
    /\ In b categories
    /\ bottleneck report = CategoryResult.with_bottleneck b true
    /\ Forall (fun c => CategoryResult.maxUsers b <= CategoryResult.maxUsers c)
              categories
    /\ maxConcurrentUsers report
       = Math_floor
           (round64
              (inject_Z (CategoryResult.maxUsers b)
               * round64
                   (round64
                      (inject_Z (sum_Z (map CategoryResult.score categories))
                       / inject_Z (Z.of_nat (List.length categories)))
                    / inject_Z 100)))%Q
    /\ (CategoryResult.maxUsers b * sum_Z (map CategoryResult.score categories))
         / (100 * Z.of_nat (List.length categories)) - 1
       <= maxConcurrentUsers report
       <= (CategoryResult.maxUsers b * sum_Z (map CategoryResult.score categories))
          / (100 * Z.of_nat (List.length categories))
    /\ ((CategoryResult.maxUsers b * sum_Z (map CategoryResult.score categories))
          mod (100 * Z.of_nat (List.length categories)) <> 0 ->
        maxConcurrentUsers report
        = (CategoryResult.maxUsers b * sum_Z (map CategoryResult.score categories))
          / (100 * Z.of_nat (List.length categories)))
    /\ 0 <= maxConcurrentUsers report <= CategoryResult.maxUsers b.
Proof.
  destruct (calculateAltitude_binary64_some calculateNextLevel categories Hnonempty)
    as (b & before & after & Hl & Hb & Ha & Hr).
  cbv zeta in Hr. eexists. exists b. split; [exact Hr|].
  cbn [maxConcurrentUsers bottleneck].
  assert (In b categories) as Hin.
  { rewrite Hl. apply in_or_app. right. left. reflexivity. }
  assert (Forall (fun c => CategoryResult.maxUsers b <= CategoryResult.maxUsers c)
                 categories) as Hmin.
  { rewrite Hl. apply first_minimum_is_minimum; assumption. }
  split; [exact Hin|]. split; [reflexivity|]. split; [exact Hmin|].
  rewrite (effectiveUsers_binary64_of_avgScore categories _ Hscores)
    by (change (2 ^ 32) with 4294967296 in Hlength;
        change (2 ^ 53) with 9007199254740992; lia).
  split; [reflexivity|].
  pose proof (sum_scores_bounds categories Hscores) as Hsum.
  pose proof (proj1 (Forall_forall _ _) Hceilings b Hin) as Hc. simpl in Hc.
  assert (0 < Z.of_nat (List.length categories)) as Hn.
  { destruct categories; [congruence|]. simpl List.length. lia. }
  apply Exists_exists in Hrange. destruct Hrange as (c0 & Hin0 & Hc0).
  pose proof (proj1 (Forall_forall _ _) Hmin c0 Hin0) as Hle. simpl in Hle.
  set (c := CategoryResult.maxUsers b) in *.
  set (s := sum_Z (map CategoryResult.score categories)) in *.
  set (n := Z.of_nat (List.length categories)) in *.
  assert (4 * (c * s) < 2 ^ 53) as Hr4.
  { assert (c * s <= c * (100 * n)) by (apply Z.mul_le_mono_nonneg_l; lia).
    assert (c * n <= CategoryResult.maxUsers c0 * n)
      by (apply Z.mul_le_mono_nonneg_r; lia).
    lia. }
  destruct (effectiveUsers_binary64_bounds c s n Hc (proj1 Hsum) Hn Hr4)
    as (Hnear & Hexact & Hnonneg).
  split; [exact Hnear|]. split; [exact Hexact|].
  split; [exact Hnonneg|].
  apply Z.le_trans with ((c * s) / (100 * n)); [apply Hnear|].
  apply Z.div_le_upper_bound; nia.
Qed.

Lemma calculateAltitude_binary64_effective_users_witness :
  exists report b,
    calculateAltitude_binary64 (fun _ _ => tt) weak_security_results = Some report
    /\ In b weak_security_results
    /\ bottleneck report = CategoryResult.with_bottleneck b true
    /\ Forall (fun c => CategoryResult.maxUsers b <= CategoryResult.maxUsers c)
              weak_security_results
    /\ maxConcurrentUsers report
       = Math_floor
           (round64
              (inject_Z (CategoryResult.maxUsers b)
               * round64
                   (round64
                      (inject_Z (sum_Z (map CategoryResult.score
                                            weak_security_results))
                       / inject_Z (Z.of_nat (List.length weak_security_results)))
                    / inject_Z 100)))%Q
    /\ (CategoryResult.maxUsers b
        * sum_Z (map CategoryResult.score weak_security_results))
         / (100 * Z.of_nat (List.length weak_security_results)) - 1
       <= maxConcurrentUsers report
       <= (CategoryResult.maxUsers b
           * sum_Z (map CategoryResult.score weak_security_results))
          / (100 * Z.of_nat (List.length weak_security_results))
    /\ ((CategoryResult.maxUsers b
         * sum_Z (map CategoryResult.score weak_security_results))
          mod (100 * Z.of_nat (List.length weak_security_results)) <> 0 ->
        maxConcurrentUsers report
        = (CategoryResult.maxUsers b
           * sum_Z (map CategoryResult.score weak_security_results))
          / (100 * Z.of_nat (List.length weak_security_results)))
    /\ 0 <= maxConcurrentUsers report <= CategoryResult.maxUsers b.
Proof.
  apply (calculateAltitude_binary64_effective_users
           (fun _ _ => tt) weak_security_results).
  - discriminate.
  - unfold weak_security_results. repeat constructor; simpl; lia.
  - unfold weak_security_results. repeat constructor; simpl; lia.
  - reflexivity.
  - unfold weak_security_results. apply Exists_cons_hd. simpl. lia.
Defined.

(** C1, as worded: for a security score of 19 (ceiling 50) and a database
    score of 100 the mean is 59.5, a binary64 number; the code reports
    floor(50 * 0.595) = 29 users, while the rounded mean is 60 and
    floor(50 * 60 / 100) = 30. *)
Lemma calculateAltitude_binary64_rounded_mean_fails :
  exists report,
    calculateAltitude_binary64 (fun _ _ => tt) weak_security_results = Some report
    /\ CategoryResult.category (bottleneck report) = security
    /\ CategoryResult.maxUsers (bottleneck report) = 50
    /\ (avgScore_binary64 weak_security_results == 119 # 2)%Q
    /\ maxConcurrentUsers report = 29
    /\ spec_overallScore weak_security_results = 60
    /\ spec_effectiveUsers 50 60 = 30
    /\ maxConcurrentUsers report
       <> spec_effectiveUsers (CategoryResult.maxUsers (bottleneck report))
                              (spec_overallScore weak_security_results).
Proof.
  eexists. split; [reflexivity|].
  split; [vm_compute; reflexivity|].
  split; [vm_compute; reflexivity|].
  split; [vm_compute; reflexivity|].
  split; [vm_compute; reflexivity|].
  split; [vm_compute; reflexivity|].
  split; [vm_compute; reflexivity|].
  vm_compute. discriminate.
Qed.

(** ** The bottleneck and ties *)

Lemma StronglySorted_app_r {A} (R : A -> A -> Prop) (l1 l2 : list A) :
  StronglySorted R (l1 ++ l2)%list -> StronglySorted R l2.
Proof.
  induction l1 as [|x l1 IH]; simpl; [auto|].
  intros H. apply IH. apply (StronglySorted_inv H).
Qed.

Lemma first_minimum_declaration_order
      (b : CategoryResult.t) (before after : list CategoryResult.t) :
  Forall (fun c => CategoryResult.maxUsers b < CategoryResult.maxUsers c) before ->
  declarationOrdered
    (map CategoryResult.category (before ++ b :: after)%list) ->
  forall c,
    In c (before ++ b :: after)%list ->
    CategoryResult.maxUsers c = CategoryResult.maxUsers b ->
    (category_index (CategoryResult.category b)
     <= category_index (CategoryResult.category c))%nat.
Proof.
  intros Hb Hsorted c Hin Heq.
  apply in_app_or in Hin. destruct Hin as [Hin|[<-|Hin]].
  - pose proof (proj1 (Forall_forall _ _) Hb c Hin) as Hlt. simpl in Hlt. lia.
  - apply Nat.le_refl.
  - unfold declarationOrdered in Hsorted. rewrite map_app in Hsorted.
    apply StronglySorted_app_r in Hsorted. simpl in Hsorted.
    apply StronglySorted_inv in Hsorted. destruct Hsorted as [_ Hall].
    rewrite Forall_forall in Hall.
    apply Nat.lt_le_incl. apply Hall. apply in_map. exact Hin.
Qed.

(** C2, as the code has it: on a non-empty array the bottleneck has the
    least ceiling of all entries, and among the entries with that ceiling
    it is the one listed first in the array given to [calculateAltitude];
    when the array lists its categories in declaration order, that is the
    earliest category in declaration order. *)
Theorem calculateAltitude_bottleneck_first_minimum
        {NextLevel : Type}
        (calculateNextLevel : Z -> list CategoryResult.t -> NextLevel)
        (categories : list CategoryResult.t)
        (Hnonempty : categories <> []) :
  exists report b before after,
    calculateAltitude calculateNextLevel categories = Some report
    /\ bottleneck report = CategoryResult.with_bottleneck b true
    /\ categories = (before ++ b :: after)%list
    /\ Forall (fun c => CategoryResult.maxUsers b <= CategoryResult.maxUsers c)
              categories
    /\ Forall (fun c => CategoryResult.maxUsers b < CategoryResult.maxUsers c)
              before
    /\ (declarationOrdered (map CategoryResult.category categories) ->
        forall c,
          In c categories ->
          CategoryResult.maxUsers c = CategoryResult.maxUsers b ->
          (category_index (CategoryResult.category b)
           <= category_index (CategoryResult.category c))%nat).
Proof.
  destruct (calculateAltitude_some calculateNextLevel categories Hnonempty)
    as (b & before & after & Hl & Hb & Ha & Hr).
  cbv zeta in Hr. eexists. exists b, before, after.
  split; [exact Hr|]. cbn [bottleneck].
  split; [reflexivity|]. split; [exact Hl|].
  split; [rewrite Hl; apply first_minimum_is_minimum; assumption|].
  split; [exact Hb|].
  rewrite Hl. apply first_minimum_declaration_order. exact Hb.
Qed.

Lemma calculateAltitude_bottleneck_first_minimum_witness :
  exists report b before after,
    calculateAltitude (fun _ _ => tt) weak_security_results = Some report
    /\ bottleneck report = CategoryResult.with_bottleneck b true
    /\ weak_security_results = (before ++ b :: after)%list
    /\ Forall (fun c => CategoryResult.maxUsers b <= CategoryResult.maxUsers c)
              weak_security_results
    /\ Forall (fun c => CategoryResult.maxUsers b < CategoryResult.maxUsers c)
              before
    /\ (declarationOrdered (map CategoryResult.category weak_security_results) ->
        forall c,
          In c weak_security_results ->
          CategoryResult.maxUsers c = CategoryResult.maxUsers b ->
          (category_index (CategoryResult.category b)
           <= category_index (CategoryResult.category c))%nat).
Proof.
  apply (calculateAltitude_bottleneck_first_minimum
           (fun _ _ => tt) weak_security_results).
  discriminate.
Defined.

(** C2, as worded: deployment and state management tie at 100,000 users;
    the code reports deployment, the entry listed first, although state
    management comes earlier in the declaration order. *)
Lemma calculateAltitude_declaration_order_fails :
  exists report,
    calculateAltitude (fun _ _ => tt) deployment_state_tie = Some report
    /\ CategoryResult.category (bottleneck report) = deployment
    /\ exists c,
        In c deployment_state_tie
        /\ CategoryResult.category c = stateManagement
        /\ CategoryResult.maxUsers c = CategoryResult.maxUsers (bottleneck report)
        /\ (category_index (CategoryResult.category c)
            < category_index (CategoryResult.category (bottleneck report)))%nat.
Proof.
  eexists. split; [reflexivity|]. split; [reflexivity|].
  exists (CategoryResult.mk stateManagement 100 100000 false []).
  repeat split.
  - right. left. reflexivity.
  - simpl. lia.
Qed.

(** ** Every applicable category at 100 *)

Lemma sum_perfect (cs : list Category) :
  sum_Z (map CategoryResult.score (map perfectResult cs))
  = 100 * Z.of_nat (List.length cs).
Proof.
  induction cs as [|c cs IH]; [reflexivity|].
  simpl map. rewrite sum_Z_cons, IH. simpl List.length. simpl CategoryResult.score.
  lia.
Qed.

Lemma avgScore_perfect (cs : list Category) :
  cs <> [] -> (avgScore (map perfectResult cs) == inject_Z 100)%Q.
Proof.
  intros Hne. unfold avgScore.
  rewrite fold_left_score_acc, Z.add_0_l, sum_perfect, length_map.
  rewrite inject_Z_mult. field.
  destruct cs; [congruence|]. unfold Qeq. simpl. lia.
Qed.

Lemma maxUsersIfPerfect_nonneg (c : Category) : 0 <= maxUsersIfPerfect c.
Proof. destruct c; simpl; lia. Qed.

(** C5, as the code has it: when every applicable category scores 100,
    the overall score is 100, the bottleneck is the applicable category
    whose top-tier ceiling is smallest (the first such in the array, which
    is the earliest in declaration order when the array is in that order),
    and the effective users, hence the level, are that ceiling at
    multiplier 1. *)
Theorem all_perfect_bottleneck_smallest_ceiling
        {NextLevel : Type}
        (calculateNextLevel : Z -> list CategoryResult.t -> NextLevel)
        (applicable : list Category)
        (Hnonempty : applicable <> []) :
  exists report c,
    calculateAltitude calculateNextLevel (map perfectResult applicable)
    = Some report
    /\ spec_overallScore (map perfectResult applicable) = 100
    /\ (avgScore (map perfectResult applicable) / inject_Z 100 == 1)%Q
    /\ In c applicable
    /\ bottleneck report
       = CategoryResult.with_bottleneck (perfectResult c) true
    /\ Forall (fun c' => maxUsersIfPerfect c <= maxUsersIfPerfect c') applicable
    /\ maxConcurrentUsers report = maxUsersIfPerfect c
    /\ altitudeLevel report
       = Altitude.level (usersToAltitude (maxUsersIfPerfect c))
    /\ currentAltitude report
       = Altitude.value (usersToAltitude (maxUsersIfPerfect c))
    /\ (declarationOrdered applicable ->
        forall c',
          In c' applicable ->
          maxUsersIfPerfect c' = maxUsersIfPerfect c ->
          (category_index c <= category_index c')%nat).
Proof.
  assert (map perfectResult applicable <> []) as Hne.
  { destruct applicable; [congruence|discriminate]. }
  destruct (calculateAltitude_some calculateNextLevel _ Hne)
    as (b & before & after & Hl & Hb & Ha & Hr).
  cbv zeta in Hr.
  assert (In b (map perfectResult applicable)) as Hin.
  { rewrite Hl. apply in_or_app. right. left. reflexivity. }
  apply in_map_iff in Hin. destruct Hin as (c & <- & Hc).
  pose proof (avgScore_perfect applicable Hnonempty) as Havg.
  assert (Math_floor
            (inject_Z (CategoryResult.maxUsers (perfectResult c))
             * (avgScore (map perfectResult applicable) / inject_Z 100))%Q
          = maxUsersIfPerfect c) as Heff.
  { rewrite (effectiveUsers_div _ _ Hne), sum_perfect, length_map.
    simpl CategoryResult.maxUsers.
    apply Z.div_mul.
    destruct applicable; [congruence|]. simpl List.length. lia. }
  rewrite Heff in Hr.
  eexists. exists c. split; [exact Hr|].
  cbn [bottleneck maxConcurrentUsers altitudeLevel currentAltitude].
  split.
  { unfold spec_overallScore, Math_round. rewrite Havg. reflexivity. }
  split; [rewrite Havg; reflexivity|].
  split; [exact Hc|]. split; [reflexivity|].
  pose proof (first_minimum_is_minimum _ _ _ Hb Ha) as Hmin.
  rewrite <- Hl in Hmin. rewrite Forall_forall in Hmin.
  split.
  { apply Forall_forall. intros c' Hc'.
    apply (Hmin (perfectResult c')). apply in_map. exact Hc'. }
  repeat split.
  intros Hsorted c' Hc' Heq.
  assert (map CategoryResult.category (map perfectResult applicable) = applicable)
    as Hcats.
  { rewrite map_map. simpl. apply map_id. }
  pose proof (first_minimum_declaration_order (perfectResult c) before after Hb)
    as Htie.
  rewrite <- Hl, Hcats in Htie.
  apply (Htie Hsorted (perfectResult c')); [apply in_map; exact Hc'|exact Heq].
Qed.

Lemma all_perfect_bottleneck_smallest_ceiling_witness :
  exists report c,
    calculateAltitude (fun _ _ => tt)
                      (map perfectResult (PLATFORM_CATEGORIES Platform.cli))
    = Some report
    /\ In c (PLATFORM_CATEGORIES Platform.cli)
    /\ bottleneck report
       = CategoryResult.with_bottleneck (perfectResult c) true
    /\ maxConcurrentUsers report = maxUsersIfPerfect c.
Proof.
  destruct (all_perfect_bottleneck_smallest_ceiling
              (fun _ _ => tt) (PLATFORM_CATEGORIES Platform.cli))
    as (report & c & Hr & _ & _ & Hc & Hb & _ & Hm & _).
  - discriminate.
  - exists report, c. repeat split; assumption.
Defined.

(** C5, as worded: for the web platform with all twelve categories at 100
    the code reports frontend, whose top-tier ceiling (10,000) is the
    smallest, and the level CRUISING; the largest top-tier ceiling is the
    database's 10,000,000, which would be ORBIT. *)
Lemma all_perfect_largest_ceiling_fails :
  exists report,
    calculateAltitude (fun _ _ => tt)
                      (map perfectResult (PLATFORM_CATEGORIES Platform.web))
    = Some report
    /\ CategoryResult.category (bottleneck report) = frontend
    /\ maxConcurrentUsers report = 10000
    /\ altitudeLevel report = CRUISING
    /\ Forall (fun c => maxUsersIfPerfect c <= maxUsersIfPerfect database)
              (PLATFORM_CATEGORIES Platform.web)
    /\ maxUsersIfPerfect database = 10000000
    /\ Altitude.level (usersToAltitude (maxUsersIfPerfect database)) = ORBIT
    /\ CategoryResult.category (bottleneck report) <> database.
Proof.
  eexists. split; [reflexivity|].
  repeat split; try reflexivity; try discriminate.
  repeat constructor; simpl; lia.
Qed.

(** ** The category list of an analysis *)

Lemma includes_category_In (l : list Category) (c : Category) :
  includes_category l c = true <-> In c l.
Proof.
  unfold includes_category. rewrite existsb_exists. split.
  - intros (x & Hin & Heq). unfold Category_eqb in Heq.
    destruct (Category_eq_dec c x); [subst; assumption|discriminate].
  - intros Hin. exists c. split; [assumption|].
    unfold Category_eqb. destruct (Category_eq_dec c c); congruence.
Qed.

Section AnalyzerFacts.
Variable detectTechStack : list RepoFile.t -> TechStack.t.
Variable scorer :
  Category -> list RepoFile.t -> TechStack.t -> option ScorerOutput.t.
Variable analysisFailureGap : Category -> Gap.t.

Lemma runScorer_category files tech c :
  CategoryScore.category (runScorer scorer analysisFailureGap files tech c) = c.
Proof. unfold runScorer. destruct (scorer c files tech); reflexivity. Qed.

Lemma analyzeCompleteness_categories repoUrl files analysis :
  analyzeCompleteness detectTechStack scorer analysisFailureGap repoUrl files
  = Some analysis ->
  CompletenessAnalysis.techStack analysis = detectTechStack files
  /\ map CategoryScore.category (CompletenessAnalysis.categories analysis)
     = filter (isApplicable (TechStack.platform (detectTechStack files)))
              CATEGORIES.
Proof.
  unfold analyzeCompleteness.
  destruct (map _ (filter _ CATEGORIES)) as [|s l] eqn:Hmap; [discriminate|].
  intros [= <-].
  cbn [CompletenessAnalysis.categories CompletenessAnalysis.techStack].
  split; [reflexivity|].
  rewrite <- Hmap, map_map.
  erewrite map_ext; [apply map_id|].
  intros c. apply runScorer_category.
Qed.

Lemma analyzeCompleteness_total repoUrl files :
  exists analysis,
    analyzeCompleteness detectTechStack scorer analysisFailureGap repoUrl files
    = Some analysis.
Proof.
  unfold analyzeCompleteness.
  destruct (TechStack.platform (detectTechStack files)); simpl;
    eexists; reflexivity.
Qed.
End AnalyzerFacts.

(** C4: an analysis always exists; for the web platform it has exactly 12
    category scores, one per fixed category in declaration order; and for
    every platform a category outside that platform's row of
    [PLATFORM_CATEGORIES] has no entry at all in the result list, while
    every category of the row has one. *)
Theorem analyzeCompleteness_applicable_categories
        (detectTechStack : list RepoFile.t -> TechStack.t)
        (scorer : Category -> list RepoFile.t -> TechStack.t
                  -> option ScorerOutput.t)
        (analysisFailureGap : Category -> Gap.t)
        (repoUrl : string) (files : list RepoFile.t) :
  exists analysis,
    analyzeCompleteness detectTechStack scorer analysisFailureGap repoUrl files
    = Some analysis
    /\ (TechStack.platform (detectTechStack files) = Platform.web ->
        List.length (CompletenessAnalysis.categories analysis) = 12%nat
        /\ map CategoryScore.category (CompletenessAnalysis.categories analysis)
           = CATEGORIES)
    /\ (forall c,
          ~ In c (PLATFORM_CATEGORIES
                    (TechStack.platform (detectTechStack files))) ->
          forall s,
            In s (CompletenessAnalysis.categories analysis) ->
            CategoryScore.category s <> c)
    /\ (forall c,
          In c (PLATFORM_CATEGORIES
                  (TechStack.platform (detectTechStack files))) ->
          exists s,
            In s (CompletenessAnalysis.categories analysis)
            /\ CategoryScore.category s = c).
Proof.
  destruct (analyzeCompleteness_total detectTechStack scorer analysisFailureGap
                                      repoUrl files) as [analysis Ha].
  exists analysis. split; [exact Ha|].
  destruct (analyzeCompleteness_categories _ _ _ _ _ _ Ha) as [_ Hcats].
  split; [|split].
  - intros Hweb. rewrite Hweb in Hcats.
    split; [|exact Hcats].
    rewrite <- (length_map CategoryScore.category), Hcats. reflexivity.
  - intros c Hnot s Hs Heq.
    apply Hnot. apply includes_category_In.
    assert (In c (map CategoryScore.category
                      (CompletenessAnalysis.categories analysis))) as Hin.
    { rewrite <- Heq. apply in_map. exact Hs. }
    rewrite Hcats in Hin. apply filter_In in Hin. apply Hin.
  - intros c Hc.
    assert (In c (map CategoryScore.category
                      (CompletenessAnalysis.categories analysis))) as Hin.
    { rewrite Hcats. apply filter_In. split.
      - destruct c; simpl; tauto.
      - apply includes_category_In. exact Hc. }
    apply in_map_iff in Hin. destruct Hin as (s & Hs & Hin).
    exists s. split; assumption.
Qed.

Lemma analyzeCompleteness_applicable_categories_witness :
  exists analysis,
    analyzeCompleteness (fun _ => AnalyzerDoubles.webStack)
                        AnalyzerDoubles.flatScorer AnalyzerDoubles.failureGap
                        "https://github.com/test/repo" []
    = Some analysis
    /\ List.length (CompletenessAnalysis.categories analysis) = 12%nat.
Proof.
  destruct (analyzeCompleteness_applicable_categories
              (fun _ => AnalyzerDoubles.webStack)
              AnalyzerDoubles.flatScorer AnalyzerDoubles.failureGap
              "https://github.com/test/repo" [])
    as (analysis & Ha & Hweb & _).
  exists analysis. split; [exact Ha|].
  apply Hweb. reflexivity.
Defined.

(** ** The analysis summary *)

Lemma String_includes_unfold (s sub : string) :
  String_includes s sub
  = if String.prefix sub s then true
    else match s with
         | EmptyString => false
         | String _ s' => String_includes s' sub
         end.
Proof. destruct s; reflexivity. Qed.

Lemma prefix_app_l (sub s1 s2 : string) :
  String.prefix sub s1 = true -> String.prefix sub (s1 ++ s2)%string = true.
Proof.
  revert s1. induction sub as [|a sub IH]; intros s1.
  - intros _. destruct (s1 ++ s2)%string; reflexivity.
  - destruct s1 as [|b s1]; simpl; [discriminate|].
    destruct (Ascii.ascii_dec a b); [apply IH|discriminate].
Qed.

Lemma prefix_refl (s : string) : String.prefix s s = true.
Proof.
  induction s as [|a s IH]; simpl; [reflexivity|].
  destruct (Ascii.ascii_dec a a); [exact IH|congruence].
Qed.

Lemma String_includes_self (s : string) : String_includes s s = true.
Proof. rewrite String_includes_unfold, prefix_refl. reflexivity. Qed.

Lemma String_includes_app_l (s1 s2 sub : string) :
  String_includes s1 sub = true ->
  String_includes (s1 ++ s2)%string sub = true.
Proof.
  induction s1 as [|a s1 IH]; intros H;
    rewrite String_includes_unfold in H; rewrite String_includes_unfold.
  - destruct (String.prefix sub "") eqn:Hp; [|discriminate].
    rewrite (prefix_app_l sub "" s2 Hp). reflexivity.
  - destruct (String.prefix sub (String a s1)) eqn:Hp.
    + rewrite (prefix_app_l sub _ s2 Hp). reflexivity.
    + cbn [append].
      destruct (String.prefix sub (String a (s1 ++ s2))); [reflexivity|].
      apply IH. exact H.
Qed.

Lemma String_includes_app_r (s1 s2 sub : string) :
  String_includes s2 sub = true ->
  String_includes (s1 ++ s2)%string sub = true.
Proof.
  intros H. induction s1 as [|a s1 IH]; [exact H|].
  rewrite String_includes_unfold. cbn [append].
  destruct (String.prefix sub (String a (s1 ++ s2))); [reflexivity|exact IH].
Qed.

Lemma String_includes_concat (sep f : string) (l : list string) :
  In f l -> String_includes (String.concat sep l) f = true.
Proof.
  induction l as [|x l IH]; [contradiction|].
  intros [->|Hin].
  - destruct l as [|y l]; simpl.
    + apply String_includes_self.
    + apply String_includes_app_l, String_includes_self.
  - destruct l as [|y l]; [contradiction|].
    change (String.concat sep (x :: y :: l))
      with (x ++ sep ++ String.concat sep (y :: l))%string.
    apply String_includes_app_r, String_includes_app_r, IH. exact Hin.
Qed.

(** C7: for every analysis the summary contains the headings
    "Production Readiness" and "Category Scores" and the name of every
    framework of the analysis's tech-stack profile. *)
Theorem formatAnalysisSummary_contains (analysis : CompletenessAnalysis.t) :
  String_includes (formatAnalysisSummary analysis) "Production Readiness" = true
  /\ String_includes (formatAnalysisSummary analysis) "Category Scores" = true
  /\ forall framework,
       In framework
          (TechStack.frameworks (CompletenessAnalysis.techStack analysis)) ->
       String_includes (formatAnalysisSummary analysis) framework = true.
Proof.
  unfold formatAnalysisSummary. split; [|split].
  - (* the summary starts with the heading *)
    reflexivity.
  - do 7 apply String_includes_app_r.
    apply String_includes_app_l, String_includes_self.
  - intros framework Hin.
    do 5 apply String_includes_app_r.
    apply String_includes_app_l, String_includes_concat. exact Hin.
Qed.

Lemma formatAnalysisSummary_contains_witness :
  In "next.js"%string
     (TechStack.frameworks (CompletenessAnalysis.techStack nextjs_analysis))
  /\ String_includes (formatAnalysisSummary nextjs_analysis) "next.js" = true.
Proof.
  split; [left; reflexivity|].
  apply (formatAnalysisSummary_contains nextjs_analysis). left. reflexivity.
Defined.

(** ** Selecting the gaps to fix ([POST] of /api/generate) *)

Lemma Category_eqb_eq (a b : Category) : Category_eqb a b = true <-> a = b.
Proof.
  unfold Category_eqb. destruct (Category_eq_dec a b); split;
    congruence || discriminate.
Qed.

Lemma Category_eqb_refl (a : Category) : Category_eqb a a = true.
Proof. apply Category_eqb_eq. reflexivity. Qed.

Lemma includes_string_In (l : list string) (s : string) :
  includes_string l s = true <-> In s l.
Proof.
  unfold includes_string. rewrite existsb_exists. split.
  - intros (x & Hin & Heq). apply String.eqb_eq in Heq. subst. assumption.
  - intros Hin. exists s. split; [assumption|apply String.eqb_refl].
Qed.

Lemma isInstant_spec (g : Gap.t) : isInstant g = true <-> Gap.fixType g = instant.
Proof.
  unfold isInstant. destruct (Gap.fixType g); simpl; split;
    congruence || discriminate.
Qed.

Lemma getInstantFixGaps_In (analysis : CompletenessAnalysis.t) (g : Gap.t) :
  In g (getInstantFixGaps analysis)
  <-> In g (allGaps (CompletenessAnalysis.categories analysis))
      /\ Gap.fixType g = instant.
Proof.
  unfold getInstantFixGaps. rewrite filter_In, isInstant_spec. reflexivity.
Qed.

(** C9: the selection filters have a fixed precedence.  A non-empty
    [gapsToFix] decides the selection whatever [instantOnly] and
    [categories] are; otherwise a true [instantOnly] decides it whatever
    [categories] is; otherwise a non-empty [categories] decides it; and
    with nothing supplied (a missing or empty [gapsToFix] included) the
    instant-fix gaps, and only gaps whose fixType is instant, are
    selected. *)
Theorem targetGaps_precedence
        (analysis : CompletenessAnalysis.t)
        (repoUrl : string) (files : option (list RepoFile.t)) :
  (forall id ids categories instantOnly,
      targetGaps analysis
        (GenerateRequest.mk repoUrl files categories (Some (id :: ids)) instantOnly)
      = filter (fun g => includes_string (id :: ids) (Gap.id g))
               (allGaps (CompletenessAnalysis.categories analysis)))
  /\ (forall gapsToFix categories,
        absentList gapsToFix ->
        targetGaps analysis
          (GenerateRequest.mk repoUrl files categories gapsToFix (Some true))
        = getInstantFixGaps analysis)
  /\ (forall gapsToFix instantOnly c cs,
        absentList gapsToFix ->
        absentFlag instantOnly ->
        targetGaps analysis
          (GenerateRequest.mk repoUrl files (Some (c :: cs)) gapsToFix instantOnly)
        = flat_map CategoryScore.gaps
            (filter (fun s => includes_category (c :: cs)
                                (CategoryScore.category s))
                    (CompletenessAnalysis.categories analysis)))
  /\ (forall gapsToFix instantOnly categories,
        absentList gapsToFix ->
        absentFlag instantOnly ->
        absentList categories ->
        targetGaps analysis
          (GenerateRequest.mk repoUrl files categories gapsToFix instantOnly)
        = getInstantFixGaps analysis
        /\ Forall (fun g => Gap.fixType g = instant)
                  (targetGaps analysis
                     (GenerateRequest.mk repoUrl files categories gapsToFix
                                         instantOnly))).
Proof.
  split; [|split; [|split]].
  - reflexivity.
  - intros gapsToFix categories [->| ->]; reflexivity.
  - intros gapsToFix instantOnly c cs [->| ->] [->| ->]; reflexivity.
  - intros gapsToFix instantOnly categories Hg Hi Hc.
    assert (targetGaps analysis
              (GenerateRequest.mk repoUrl files categories gapsToFix instantOnly)
            = getInstantFixGaps analysis) as E.
    { destruct Hg as [->| ->], Hi as [->| ->], Hc as [->| ->]; reflexivity. }
    split; [exact E|]. rewrite E.
    apply Forall_forall. intros g Hin.
    apply getInstantFixGaps_In in Hin. apply Hin.
Qed.

Lemma targetGaps_precedence_witness :
  absentList (Some (@nil string))
  /\ absentFlag None
  /\ absentList (@None (list Category))
  /\ targetGaps sample_analysis
       (GenerateRequest.mk "https://github.com/test/repo" None None (Some []) None)
     = [secGap; ciGap]
  /\ targetGaps sample_analysis
       (GenerateRequest.mk "https://github.com/test/repo" None
                           (Some [deployment]) (Some ["testing-no-framework"%string])
                           (Some true))
     = [testGap].
Proof.
  split; [right; reflexivity|]. split; [left; reflexivity|].
  split; [left; reflexivity|].
  destruct (targetGaps_precedence sample_analysis
              "https://github.com/test/repo" None) as (Hids & _ & _ & Hnone).
  split.
  - rewrite (proj1 (Hnone (Some []) None None
                          (or_intror eq_refl) (or_introl eq_refl)
                          (or_introl eq_refl))).
    reflexivity.
  - rewrite Hids. reflexivity.
Defined.

(** ** Grouping the selected gaps by category *)

Lemma Map_get_set {V} (m : CategoryMap V) (k k' : Category) (v : V) :
  Map_get (Map_set m k v) k'
  = if Category_eqb k' k then Some v else Map_get m k'.
Proof.
  induction m as [|[k0 v0] m IH]; simpl.
  - reflexivity.
  - destruct (Category_eqb k k0) eqn:E; simpl.
    + apply Category_eqb_eq in E. subst k0.
      destruct (Category_eqb k' k); reflexivity.
    + destruct (Category_eqb k' k0) eqn:E'.
      * apply Category_eqb_eq in E'. subst k0.
        destruct (Category_eqb k' k) eqn:E''; [|reflexivity].
        apply Category_eqb_eq in E''. subst k'.
        rewrite Category_eqb_refl in E. discriminate.
      * exact IH.
Qed.

Lemma Map_keys_set {V} (m : CategoryMap V) (k : Category) (v : V) :
  Map_keys (Map_set m k v)
  = if includes_category (Map_keys m) k then Map_keys m
    else (Map_keys m ++ [k])%list.
Proof.
  unfold Map_keys, includes_category.
  induction m as [|[k0 v0] m IH]; simpl.
  - reflexivity.
  - destruct (Category_eqb k k0) eqn:E; simpl.
    + apply Category_eqb_eq in E. subst k0. reflexivity.
    + rewrite IH. destruct (existsb (Category_eqb k) (map fst m)); reflexivity.
Qed.

Lemma gapsByCategory_snoc (l : list Gap.t) (g : Gap.t) :
  gapsByCategory (l ++ [g])%list = groupStep (gapsByCategory l) g.
Proof. unfold gapsByCategory. rewrite fold_left_app. reflexivity. Qed.

Lemma gapsByCategory_get (l : list Gap.t) (k : Category) :
  Map_get (gapsByCategory l) k = nonEmptyOrNone (gapsOfCategory k l).
Proof.
  induction l as [|g l IH] using rev_ind; [reflexivity|].
  rewrite gapsByCategory_snoc. unfold groupStep.
  rewrite Map_get_set. unfold gapsOfCategory in *. rewrite filter_app. simpl.
  destruct (Category_eqb k (Gap.category g)) eqn:E.
  - apply Category_eqb_eq in E. subst k.
    unfold Map_get_or_empty. rewrite IH.
    destruct (filter _ l); reflexivity.
  - rewrite app_nil_r. exact IH.
Qed.

Lemma gapsByCategory_keys (l : list Gap.t) :
  Map_keys (gapsByCategory l)
  = rev (nodup Category_eq_dec (rev (map Gap.category l))).
Proof.
  induction l as [|g l IH] using rev_ind; [reflexivity|].
  rewrite gapsByCategory_snoc. unfold groupStep.
  rewrite Map_keys_set, IH, map_app, rev_app_distr. simpl.
  destruct (in_dec Category_eq_dec (Gap.category g) (rev (map Gap.category l)))
    as [Hin|Hnot].
  - assert (includes_category
              (rev (nodup Category_eq_dec (rev (map Gap.category l))))
              (Gap.category g) = true) as ->; [|reflexivity].
    apply includes_category_In. rewrite <- in_rev. apply nodup_In. exact Hin.
  - destruct (includes_category
                (rev (nodup Category_eq_dec (rev (map Gap.category l))))
                (Gap.category g)) eqn:E; [|reflexivity].
    exfalso. apply Hnot.
    apply includes_category_In in E. rewrite <- in_rev in E.
    apply nodup_In in E. exact E.
Qed.

Lemma gapsByCategory_keys_In (l : list Gap.t) (k : Category) :
  In k (Map_keys (gapsByCategory l)) <-> exists g, In g l /\ Gap.category g = k.
Proof.
  rewrite gapsByCategory_keys, <- in_rev, nodup_In, <- in_rev, in_map_iff.
  split; intros (g & H1 & H2); exists g; auto.
Qed.

Lemma gapsByCategory_keys_NoDup (l : list Gap.t) :
  NoDup (Map_keys (gapsByCategory l)).
Proof.
  rewrite gapsByCategory_keys. apply NoDup_rev, NoDup_nodup.
Qed.

(** Sortedness of arrays built with [filter], [flatMap] and [push]. *)

Lemma StronglySorted_filter {A} (R : A -> A -> Prop) (p : A -> bool) (l : list A) :
  StronglySorted R l -> StronglySorted R (filter p l).
Proof.
  induction 1 as [|x l Hs IH Hall]; simpl; [constructor|].
  destruct (p x); [|exact IH].
  constructor; [exact IH|].
  rewrite Forall_forall in *. intros y Hy. apply filter_In in Hy.
  apply Hall, Hy.
Qed.

Lemma StronglySorted_app_intro {A} (R : A -> A -> Prop) (l1 l2 : list A) :
  StronglySorted R l1 -> StronglySorted R l2 ->
  (forall x y, In x l1 -> In y l2 -> R x y) ->
  StronglySorted R (l1 ++ l2)%list.
Proof.
  induction 1 as [|x l1 Hs IH Hall]; intros H2 Hcross; simpl; [exact H2|].
  constructor.
  - apply IH; [exact H2|]. intros a b Ha Hb. apply Hcross; [right|]; assumption.
  - apply Forall_app. split; [exact Hall|].
    apply Forall_forall. intros y Hy. apply Hcross; [left; reflexivity|exact Hy].
Qed.

Lemma StronglySorted_app_l {A} (R : A -> A -> Prop) (l1 l2 : list A) :
  StronglySorted R (l1 ++ l2)%list -> StronglySorted R l1.
Proof.
  induction l1 as [|x l1 IH]; simpl; [constructor|].
  intros H. apply StronglySorted_inv in H. destruct H as [Hs Hall].
  constructor; [apply IH; exact Hs|].
  apply Forall_app in Hall. apply Hall.
Qed.

Lemma StronglySorted_app_cross {A} (R : A -> A -> Prop) (l1 l2 : list A) :
  StronglySorted R (l1 ++ l2)%list ->
  forall x y, In x l1 -> In y l2 -> R x y.
Proof.
  induction l1 as [|a l1 IH]; simpl; [contradiction|].
  intros H x y Hx Hy. apply StronglySorted_inv in H. destruct H as [Hs Hall].
  destruct Hx as [<-|Hx].
  - rewrite Forall_forall in Hall. apply Hall, in_or_app. right. exact Hy.
  - apply (IH Hs x y Hx Hy).
Qed.

Lemma category_index_inj (a b : Category) :
  category_index a = category_index b -> a = b.
Proof. destruct a, b; simpl; intros H; try reflexivity; discriminate. Qed.

Lemma gapsByCategory_keys_sorted (l : list Gap.t) :
  gapsInCategoryOrder l -> declarationOrdered (Map_keys (gapsByCategory l)).
Proof.
  unfold gapsInCategoryOrder, declarationOrdered.
  induction l as [|g l IH] using rev_ind; intros Hs; [constructor|].
  pose proof (IH (StronglySorted_app_l _ _ _ Hs)) as Hkeys.
  pose proof (StronglySorted_app_cross _ _ _ Hs) as Hcross.
  rewrite gapsByCategory_snoc. unfold groupStep. rewrite Map_keys_set.
  destruct (includes_category (Map_keys (gapsByCategory l)) (Gap.category g))
    eqn:E; [exact Hkeys|].
  apply StronglySorted_app_intro; [exact Hkeys|repeat constructor|].
  intros k k' Hk [<-|[]].
  assert (k <> Gap.category g) as Hneq.
  { intros ->. apply includes_category_In in Hk. congruence. }
  apply gapsByCategory_keys_In in Hk. destruct Hk as (x & Hx & <-).
  pose proof (Hcross x g Hx (or_introl eq_refl)) as Hle. simpl in Hle.
  assert (category_index (Gap.category x) <> category_index (Gap.category g)).
  { intros Heq. apply Hneq, category_index_inj, Heq. }
  lia.
Qed.

Lemma flat_map_gaps_sorted (cats : list CategoryScore.t) :
  StronglySorted
    (fun a b => (category_index (CategoryScore.category a)
                 < category_index (CategoryScore.category b))%nat) cats ->
  Forall (fun s => Forall (fun g => Gap.category g = CategoryScore.category s)
                          (CategoryScore.gaps s)) cats ->
  gapsInCategoryOrder (flat_map CategoryScore.gaps cats)
  /\ Forall (fun g => exists s, In s cats
                                /\ Gap.category g = CategoryScore.category s)
            (flat_map CategoryScore.gaps cats).
Proof.
  unfold gapsInCategoryOrder.
  induction 1 as [|s cats Hs IH Hall]; intros Hown; simpl.
  - split; constructor.
  - apply Forall_cons_iff in Hown. destruct Hown as [Hs_own Hown].
    destruct (IH Hown) as [IHs IHin].
    rewrite Forall_forall in Hs_own, IHin, Hall.
    split.
    + apply StronglySorted_app_intro; [|exact IHs|].
      * assert (forall gs,
                   (forall g, In g gs -> Gap.category g = CategoryScore.category s) ->
                   StronglySorted
                     (fun a b => (category_index (Gap.category a)
                                  <= category_index (Gap.category b))%nat) gs)
          as Hsame.
        { induction gs as [|g gs IHgs]; intros Hg; constructor.
          - apply IHgs. intros g' Hg'. apply Hg. right. exact Hg'.
          - apply Forall_forall. intros g' Hg'.
            rewrite (Hg g (or_introl eq_refl)), (Hg g' (or_intror Hg')).
            apply Nat.le_refl. }
        apply Hsame, Hs_own.
      * intros x y Hx Hy. rewrite (Hs_own x Hx).
        destruct (IHin y Hy) as (s' & Hs' & ->).
        apply Nat.lt_le_incl, Hall, Hs'.
    + apply Forall_app. split; apply Forall_forall.
      * intros g Hg. exists s. split; [left; reflexivity|apply Hs_own, Hg].
      * intros g Hg. destruct (IHin g Hg) as (s' & Hs' & E).
        exists s'. split; [right; exact Hs'|exact E].
Qed.

Lemma targetGaps_sorted (analysis : CompletenessAnalysis.t)
      (body : GenerateRequest.t) :
  wellFormed analysis -> gapsInCategoryOrder (targetGaps analysis body).
Proof.
  intros [Hsorted Hown].
  pose proof (proj1 (flat_map_gaps_sorted _ Hsorted Hown)) as Hall.
  assert (forall p,
             gapsInCategoryOrder
               (flat_map CategoryScore.gaps
                  (filter p (CompletenessAnalysis.categories analysis))))
    as Hcats.
  { intros p. apply flat_map_gaps_sorted.
    - apply StronglySorted_filter. exact Hsorted.
    - apply Forall_forall. intros s Hs. apply filter_In in Hs.
      rewrite Forall_forall in Hown. apply Hown, Hs. }
  unfold targetGaps, getInstantFixGaps, allGaps, gapsInCategoryOrder.
  destruct (GenerateRequest.gapsToFix body) as [[|id ids]|];
    destruct (GenerateRequest.instantOnly body) as [[|]|];
    destruct (GenerateRequest.categories body) as [[|c cs]|];
    try (apply StronglySorted_filter; exact Hall);
    apply Hcats.
Qed.

Lemma sample_analysis_wellFormed : wellFormed sample_analysis.
Proof.
  split.
  - repeat constructor; simpl; lia.
  - repeat constructor.
Qed.

(** C6, as the code has it: for a non-empty id set, else a true
    instant-only flag, else a non-empty category set, the selection holds
    exactly the gaps the filter matches; the selected gaps are grouped by
    their category, each group keeping the selection's order, the groups
    in order of first appearance among the selected gaps and without
    repetition; the groups are in declaration order whenever the analysis
    lists its categories in declaration order and every gap carries the
    category of the score holding it.  The grouping is a function of the
    analysis and the request, hence the same on every run. *)
Theorem gapsByCategory_groups_selection
        (analysis : CompletenessAnalysis.t) (body : GenerateRequest.t) :
  (forall ids,
      GenerateRequest.gapsToFix body = Some ids -> ids <> [] ->
      forall g,
        In g (targetGaps analysis body)
        <-> In g (allGaps (CompletenessAnalysis.categories analysis))
            /\ In (Gap.id g) ids)
  /\ (absentList (GenerateRequest.gapsToFix body) ->
      GenerateRequest.instantOnly body = Some true ->
      forall g,
        In g (targetGaps analysis body)
        <-> In g (allGaps (CompletenessAnalysis.categories analysis))
            /\ Gap.fixType g = instant)
  /\ (forall cs,
        absentList (GenerateRequest.gapsToFix body) ->
        absentFlag (GenerateRequest.instantOnly body) ->
        GenerateRequest.categories body = Some cs -> cs <> [] ->
        forall g,
          In g (targetGaps analysis body)
          <-> exists s,
                In s (CompletenessAnalysis.categories analysis)
                /\ In (CategoryScore.category s) cs
                /\ In g (CategoryScore.gaps s))
  /\ (forall k,
        Map_get (gapsByCategory (targetGaps analysis body)) k
        = nonEmptyOrNone (gapsOfCategory k (targetGaps analysis body)))
  /\ Map_keys (gapsByCategory (targetGaps analysis body))
     = rev (nodup Category_eq_dec
                  (rev (map Gap.category (targetGaps analysis body))))
  /\ NoDup (Map_keys (gapsByCategory (targetGaps analysis body)))
  /\ (wellFormed analysis ->
      declarationOrdered (Map_keys (gapsByCategory (targetGaps analysis body)))).
Proof.
  split; [|split; [|split; [|split; [|split; [|split]]]]].
  - intros ids Hids Hne g. unfold targetGaps. rewrite Hids.
    destruct ids as [|id ids]; [congruence|].
    rewrite filter_In, includes_string_In. reflexivity.
  - intros Habsent Hflag g. unfold targetGaps. rewrite Hflag.
    destruct Habsent as [-> | ->]; apply getInstantFixGaps_In.
  - intros cs Habsent Hflag Hcats Hne g. unfold targetGaps. rewrite Hcats.
    destruct cs as [|c cs]; [congruence|].
    assert (In g (flat_map CategoryScore.gaps
                    (filter (fun s => includes_category (c :: cs)
                                        (CategoryScore.category s))
                            (CompletenessAnalysis.categories analysis)))
            <-> exists s,
                  In s (CompletenessAnalysis.categories analysis)
                  /\ In (CategoryScore.category s) (c :: cs)
                  /\ In g (CategoryScore.gaps s)) as E.
    { rewrite in_flat_map. split.
      - intros (s & Hs & Hg). apply filter_In in Hs. destruct Hs as [Hs Hinc].
        apply includes_category_In in Hinc. exists s. auto.
      - intros (s & Hs & Hinc & Hg). exists s. split; [|exact Hg].
        apply filter_In. split; [exact Hs|].
        apply includes_category_In. exact Hinc. }
    destruct Habsent as [-> | ->], Hflag as [-> | ->]; exact E.
  - intros k. apply gapsByCategory_get.
  - apply gapsByCategory_keys.
  - apply gapsByCategory_keys_NoDup.
  - intros Hwf. apply gapsByCategory_keys_sorted, targetGaps_sorted, Hwf.
Qed.

Lemma gapsByCategory_groups_selection_witness :
  wellFormed sample_analysis
  /\ gapsByCategory
       (targetGaps sample_analysis
          (GenerateRequest.mk "https://github.com/test/repo" None None None
                              (Some true)))
     = [ (security, [secGap]); (deployment, [ciGap]) ]
  /\ declarationOrdered
       (Map_keys
          (gapsByCategory
             (targetGaps sample_analysis
                (GenerateRequest.mk "https://github.com/test/repo" None None None
                                    (Some true))))).
Proof.
  split; [exact sample_analysis_wellFormed|]. split; [reflexivity|].
  apply (gapsByCategory_groups_selection sample_analysis).
  exact sample_analysis_wellFormed.
Defined.

(** C6, as worded: an explicit but empty id set matches no gap, yet the
    code selects the instant-fix gaps; and for an analysis that lists
    deployment before state management the groups come out in that
    order, which is not the declaration order. *)
Lemma gapsByCategory_declaration_order_fails :
  targetGaps sample_analysis
    (GenerateRequest.mk "https://github.com/test/repo" None None (Some []) None)
  = [secGap; ciGap]
  /\ (forall g,
        In g (allGaps (CompletenessAnalysis.categories sample_analysis)) ->
        ~ In (Gap.id g) [])
  /\ Map_keys
       (gapsByCategory
          (targetGaps ios_order_analysis
             (GenerateRequest.mk "https://github.com/test/app" None None None
                                 (Some true))))
     = [deployment; stateManagement]
  /\ ~ declarationOrdered [deployment; stateManagement].
Proof.
  split; [reflexivity|]. split; [intros g _ []|]. split; [reflexivity|].
  intros H. apply StronglySorted_inv in H. destruct H as [_ H].
  apply Forall_inv in H. simpl in H. lia.
Qed.

(** ** The rate limiter *)

Section RateLimitFacts.
Context {DB Err : Type}.
Variable prisma : PrismaClient DB Err.
Variables (now : Z) (identifier : string) (limit : Z) (windowMs : Q).

Local Abbreviation windowStart := (inject_Z now - windowMs)%Q.

Lemma rateLimit_try_throws (db : DB) (e : Err) (db' : DB) :
  rateLimit_try prisma now identifier limit windowMs db = (inl e, db')
  <-> databaseThrows prisma now identifier limit windowMs db e db'.
Proof.
  unfold rateLimit_try, bind. split.
  - destruct (executeRaw_deleteBefore prisma (new_Date windowStart) db)
      as [[e1|u] db1] eqn:Hd.
    + intros [= -> ->]. apply delete_throws. exact Hd.
    + destruct (rateLimit_count prisma identifier (new_Date windowStart) db1)
        as [[e2|count] db2] eqn:Hc.
      * intros [= -> ->]. eapply count_throws; eassumption.
      * destruct (Z.geb_spec count limit) as [Hge|Hlt].
        -- unfold ret. discriminate.
        -- destruct (rateLimit_create prisma identifier db2)
             as [[e3|u'] db3] eqn:Hn.
           ++ intros [= -> ->]. eapply create_throws; eassumption.
           ++ unfold ret. discriminate.
  - intros [Hd|u db1 Hd Hc|u db1 db2 count Hd Hc Hlt Hn].
    + rewrite Hd. reflexivity.
    + rewrite Hd, Hc. reflexivity.
    + rewrite Hd, Hc.
      destruct (Z.geb_spec count limit) as [Hge|_]; [lia|].
      rewrite Hn. reflexivity.
Qed.

Lemma rateLimit_try_succeeds (db : DB) (count : Z) (db' : DB) :
  databaseSucceeds prisma now identifier limit windowMs db count db' ->
  rateLimit_try prisma now identifier limit windowMs db
  = (inr (RateLimitResult.mk
            (negb (count >=? limit))
            (inject_Z (Math_ceil (windowStart + windowMs)))
            (if count >=? limit then 0 else limit - count - 1)),
     db').
Proof.
  unfold rateLimit_try, bind.
  intros [u db1 db2 c Hd Hc Hge|u u' db1 db2 db3 c Hd Hc Hlt Hn];
    rewrite Hd, Hc.
  - destruct (Z.geb_spec c limit); [reflexivity|lia].
  - destruct (Z.geb_spec c limit); [lia|]. rewrite Hn. reflexivity.
Qed.

Lemma window_end_is_now :
  Math_ceil (windowStart + windowMs) = now.
Proof.
  unfold Math_ceil.
  assert (inject_Z now - windowMs + windowMs == inject_Z now)%Q as E by ring.
  rewrite E. apply Qceiling_Z.
Qed.
End RateLimitFacts.

(** C8: whenever a database operation reached by a [rateLimit] call
    throws, the call still returns, and it fails open: success is true
    and remaining is limit - 1 (with reset = now + windowMs). *)
Theorem rateLimit_fails_open
        {DB Err : Type} (prisma : PrismaClient DB Err)
        (now : Z) (identifier : string) (limit : Z) (windowMs : Q)
        (db : DB) (e : Err) (db' : DB)
        (Hthrows : databaseThrows prisma now identifier limit windowMs db e db') :
  rateLimit prisma now identifier limit windowMs db
  = (RateLimitResult.mk true (inject_Z now + windowMs)%Q (limit - 1), db')
  /\ RateLimitResult.success
       (fst (rateLimit prisma now identifier limit windowMs db)) = true
  /\ RateLimitResult.remaining
       (fst (rateLimit prisma now identifier limit windowMs db)) = limit - 1.
Proof.
  apply rateLimit_try_throws in Hthrows.
  assert (rateLimit prisma now identifier limit windowMs db
          = (RateLimitResult.mk true (inject_Z now + windowMs)%Q (limit - 1), db'))
    as E.
  { unfold rateLimit, try_catch. rewrite Hthrows. reflexivity. }
  rewrite E. repeat split.
Qed.

Lemma rateLimit_fails_open_witness :
  databaseThrows TestDoubles.downPrisma 1700000000000 "203.0.113.9" 5
                 DEFAULT_WINDOW_MS [] "connection refused"%string []
  /\ rateLimit TestDoubles.downPrisma 1700000000000 "203.0.113.9" 5
               DEFAULT_WINDOW_MS []
     = (RateLimitResult.mk true (inject_Z 1700000000000 + DEFAULT_WINDOW_MS)%Q 4,
        []).
Proof.
  assert (databaseThrows TestDoubles.downPrisma 1700000000000 "203.0.113.9" 5
                         DEFAULT_WINDOW_MS [] "connection refused"%string []) as H.
  { apply delete_throws. reflexivity. }
  split; [exact H|].
  apply (rateLimit_fails_open TestDoubles.downPrisma 1700000000000
                              "203.0.113.9" 5 DEFAULT_WINDOW_MS [] _ [] H).
Defined.

(** C10: whenever the database operations of a [rateLimit] call succeed,
    the returned reset is ceil(windowStart + windowMs), which is the time
    of the call itself, in the allowed and in the denied branch alike; for
    a positive window it lies strictly before now + windowMs, the end of
    the window that starts at the call. *)
Theorem rateLimit_reset_is_now
        {DB Err : Type} (prisma : PrismaClient DB Err)
        (now : Z) (identifier : string) (limit : Z) (windowMs : Q)
        (db : DB) (count : Z) (db' : DB)
        (Hsucceeds :
           databaseSucceeds prisma now identifier limit windowMs db count db') :
  rateLimit prisma now identifier limit windowMs db
  = (RateLimitResult.mk
       (negb (count >=? limit))
       (inject_Z (Math_ceil (inject_Z now - windowMs + windowMs)))
       (if count >=? limit then 0 else limit - count - 1),
     db')
  /\ RateLimitResult.reset
       (fst (rateLimit prisma now identifier limit windowMs db))
     = inject_Z now
  /\ (0 < windowMs ->
      RateLimitResult.reset
        (fst (rateLimit prisma now identifier limit windowMs db))
      < inject_Z now + windowMs)%Q.
Proof.
  pose proof (rateLimit_try_succeeds _ _ _ _ _ _ _ _ Hsucceeds) as Htry.
  assert (rateLimit prisma now identifier limit windowMs db
          = (RateLimitResult.mk
               (negb (count >=? limit))
               (inject_Z (Math_ceil (inject_Z now - windowMs + windowMs)))
               (if count >=? limit then 0 else limit - count - 1),
             db')) as E.
  { unfold rateLimit, try_catch. rewrite Htry. reflexivity. }
  rewrite E. cbn [fst RateLimitResult.reset].
  rewrite window_end_is_now.
  split; [reflexivity|]. split; [reflexivity|].
  intros Hpos.
  rewrite <- (Qplus_0_r (inject_Z now)) at 1.
  apply Qplus_lt_r. exact Hpos.
Qed.

Lemma rateLimit_reset_is_now_witness :
  databaseSucceeds (TestDoubles.memoryPrisma 1700000000000) 1700000000000
                   "203.0.113.9" 5 DEFAULT_WINDOW_MS [] 0
                   [("203.0.113.9"%string, 1700000000000)]
  /\ rateLimit (TestDoubles.memoryPrisma 1700000000000) 1700000000000
               "203.0.113.9" 5 DEFAULT_WINDOW_MS []
     = (RateLimitResult.mk true (inject_Z 1700000000000) 4,
        [("203.0.113.9"%string, 1700000000000)])
  /\ RateLimitResult.reset
       (fst (rateLimit (TestDoubles.memoryPrisma 1700000000000) 1700000000000
                       "203.0.113.9" 5 DEFAULT_WINDOW_MS []))
     = inject_Z 1700000000000.
Proof.
  assert (databaseSucceeds (TestDoubles.memoryPrisma 1700000000000)
                           1700000000000 "203.0.113.9" 5 DEFAULT_WINDOW_MS [] 0
                           [("203.0.113.9"%string, 1700000000000)]) as H.
  { apply (succeeds_allowed _ _ _ _ _ _ tt tt [] []); try reflexivity. }
  split; [exact H|].
  destruct (rateLimit_reset_is_now _ _ _ _ _ _ _ _ H) as (E & Hreset & _).
  split; [|exact Hreset].
  rewrite E. reflexivity.
Defined.

(** The denied branch on the same table: with the limit already reached,
    the reset is again the time of the call. *)
Example rateLimit_denied_reset :
  rateLimit (TestDoubles.memoryPrisma 1700000000000) 1700000000000
            "203.0.113.9" 1 DEFAULT_WINDOW_MS
            [("203.0.113.9"%string, 1699999990000)]
  = (RateLimitResult.mk false (inject_Z 1700000000000) 0,
     [("203.0.113.9"%string, 1699999990000)]).
Proof. reflexivity. Qed.


(* ===================================================================== *)
(** * Further properties of the code *)
(* ===================================================================== *)

(** ** The sort behind the bottleneck *)

Section SortFacts.
Context {A : Type} (key : A -> Z).

Local Abbreviation byKeyDiff := (fun a b : A => key a - key b).

Lemma sort_insert_perm (x : A) (l : list A) :
  Permutation (x :: l) (sort_insert byKeyDiff x l).
Proof.
  induction l as [|y l IH]; simpl; [apply Permutation_refl|].
  destruct (key x - key y <=? 0); [apply Permutation_refl|].
  eapply Permutation_trans; [apply perm_swap|].
  apply perm_skip. exact IH.
Qed.

Lemma sort_insert_sorted (x : A) (l : list A) :
  StronglySorted (fun a b => key a <= key b) l ->
  StronglySorted (fun a b => key a <= key b) (sort_insert byKeyDiff x l).
Proof.
  induction 1 as [|y l Hs IH Hall]; simpl; [repeat constructor|].
  destruct (Z.leb_spec (key x - key y) 0) as [Hle|Hgt].
  - constructor; [constructor; assumption|].
    constructor; [lia|].
    eapply Forall_impl; [|exact Hall]. simpl. intros; lia.
  - constructor; [exact IH|].
    apply (Permutation_Forall (sort_insert_perm x l)).
    constructor; [lia|exact Hall].
Qed.

Lemma sort_insert_filter (x : A) (l : list A) (k : Z) :
  filter (fun a => key a =? k) (sort_insert byKeyDiff x l)
  = filter (fun a => key a =? k) (x :: l).
Proof.
  induction l as [|y l IH]; [reflexivity|]. simpl sort_insert.
  destruct (Z.leb_spec (key x - key y) 0) as [Hle|Hgt]; [reflexivity|].
  simpl in *. rewrite IH.
  destruct (Z.eqb_spec (key x) k) as [Hx|Hx];
    destruct (Z.eqb_spec (key y) k) as [Hy|Hy]; try reflexivity.
  lia.
Qed.
End SortFacts.

(** X1: the array that [calculateAltitude] sorts by [maxUsers] is a
    rearrangement of its input in ascending order of the key, and the
    sort is stable: entries with equal keys keep their input order. *)
Theorem Array_sort_sorted_stable_permutation
        {A : Type} (key : A -> Z) (l : list A) :
  Permutation l (Array_sort (fun a b => key a - key b) l)
  /\ StronglySorted (fun a b => key a <= key b)
                    (Array_sort (fun a b => key a - key b) l)
  /\ forall k,
       filter (fun a => key a =? k) (Array_sort (fun a b => key a - key b) l)
       = filter (fun a => key a =? k) l.
Proof.
  induction l as [|x l (IHp & IHs & IHf)]; simpl.
  - repeat split; constructor.
  - split; [|split].
    + eapply Permutation_trans; [|apply sort_insert_perm].
      apply perm_skip. exact IHp.
    + apply sort_insert_sorted. exact IHs.
    + intros k. rewrite sort_insert_filter. simpl. rewrite IHf. reflexivity.
Qed.

(** ** More on [calculateAltitude] *)

(** X2: [calculateAltitude] fails (the TypeError on [sorted[0]]) exactly on
    the empty array; on every other input it returns a report. *)
Theorem calculateAltitude_fails_iff_empty
        {NextLevel : Type}
        (calculateNextLevel : Z -> list CategoryResult.t -> NextLevel)
        (results : list CategoryResult.t) :
  calculateAltitude calculateNextLevel results = None <-> results = [].
Proof.
  split.
  - intros Hnone. destruct results as [|c l]; [reflexivity|].
    destruct (calculateAltitude_some calculateNextLevel (c :: l))
      as (b & before & after & _ & _ & _ & Hr); [discriminate|].
    rewrite Hr in Hnone. discriminate.
  - intros ->. reflexivity.
Qed.

Lemma filter_key_absent {B : Type} (f : B -> Category) (l : list B) (k : Category) :
  ~ In k (map f l) -> filter (fun y => Category_eqb (f y) k) l = [].
Proof.
  induction l as [|y l IH]; simpl; [reflexivity|].
  intros Hnot. destruct (Category_eqb (f y) k) eqn:E.
  - apply Category_eqb_eq in E. exfalso. apply Hnot. left. exact E.
  - apply IH. intros Hin. apply Hnot. right. exact Hin.
Qed.

Lemma filter_same_key_once {B : Type} (f : B -> Category) (l : list B) (x : B) :
  NoDup (map f l) -> In x l ->
  List.length (filter (fun y => Category_eqb (f y) (f x)) l) = 1%nat.
Proof.
  induction l as [|y l IH]; simpl; [contradiction|].
  intros Hnd Hin. apply NoDup_cons_iff in Hnd. destruct Hnd as [Hnot Hnd].
  destruct Hin as [->|Hin].
  - rewrite Category_eqb_refl. simpl.
    rewrite (filter_key_absent f l (f x) Hnot). reflexivity.
  - destruct (Category_eqb (f y) (f x)) eqn:E.
    + apply Category_eqb_eq in E. exfalso. apply Hnot. rewrite E.
      apply in_map. exact Hin.
    + apply IH; assumption.
Qed.

Lemma filter_flag_length (p : CategoryResult.t -> bool) (l : list CategoryResult.t) :
  List.length (filter CategoryResult.bottleneck
                 (map (fun c => CategoryResult.with_bottleneck c (p c)) l))
  = List.length (filter p l).
Proof.
  induction l as [|c l IH]; [reflexivity|]. simpl.
  destruct (p c); simpl; rewrite IH; reflexivity.
Qed.

(** The report in terms of the least ceiling and the sum of the scores. *)
Lemma calculateAltitude_report
      {NextLevel : Type}
      (calculateNextLevel : Z -> list CategoryResult.t -> NextLevel)
      (results : list CategoryResult.t) :
  results <> [] ->
  exists report b,
    calculateAltitude calculateNextLevel results = Some report
    /\ In b results
    /\ Forall (fun c => CategoryResult.maxUsers b <= CategoryResult.maxUsers c)
              results
    /\ bottleneck report = CategoryResult.with_bottleneck b true
    /\ categories report
       = map (fun c =>
                CategoryResult.with_bottleneck c
                  (Category_eqb (CategoryResult.category c)
                                (CategoryResult.category b)))
             results
    /\ maxConcurrentUsers report
       = (CategoryResult.maxUsers b * sum_Z (map CategoryResult.score results))
         / (100 * Z.of_nat (List.length results))
    /\ altitudeLevel report
       = Altitude.level (usersToAltitude (maxConcurrentUsers report))
    /\ currentAltitude report
       = Altitude.value (usersToAltitude (maxConcurrentUsers report)).
Proof.
  intros Hne.
  destruct (calculateAltitude_some calculateNextLevel results Hne)
    as (b & before & after & Hl & Hb & Ha & Hr).
  cbv zeta in Hr. eexists. exists b. split; [exact Hr|].
  cbn [bottleneck categories maxConcurrentUsers altitudeLevel currentAltitude].
  split; [rewrite Hl; apply in_or_app; right; left; reflexivity|].
  split; [rewrite Hl; apply first_minimum_is_minimum; assumption|].
  split; [reflexivity|]. split; [reflexivity|].
  split; [apply effectiveUsers_div; exact Hne|].
  split; reflexivity.
Qed.

Lemma calculateAltitude_Some_nonempty
      {NextLevel : Type}
      (calculateNextLevel : Z -> list CategoryResult.t -> NextLevel)
      (results : list CategoryResult.t) (report : AltitudeReport NextLevel) :
  calculateAltitude calculateNextLevel results = Some report -> results <> [].
Proof. intros H ->. discriminate. Qed.

(** X3: the report lists the input entries unchanged and in order, apart
    from the flag; an entry is flagged exactly when its category is the
    bottleneck's; the bottleneck itself is flagged; and when the
    categories of the input are pairwise distinct exactly one entry is
    flagged. *)
Theorem calculateAltitude_bottleneck_flags
        {NextLevel : Type}
        (calculateNextLevel : Z -> list CategoryResult.t -> NextLevel)
        (results : list CategoryResult.t) (report : AltitudeReport NextLevel)
        (Hreport : calculateAltitude calculateNextLevel results = Some report) :
  map (fun c => CategoryResult.with_bottleneck c false) (categories report)
  = map (fun c => CategoryResult.with_bottleneck c false) results
  /\ map CategoryResult.bottleneck (categories report)
     = map (fun c => Category_eqb (CategoryResult.category c)
                       (CategoryResult.category (bottleneck report)))
           results
  /\ CategoryResult.bottleneck (bottleneck report) = true
  /\ (exists c, In c (categories report)
                /\ CategoryResult.bottleneck c = true
                /\ CategoryResult.maxUsers c
                   = CategoryResult.maxUsers (bottleneck report))
  /\ (NoDup (map CategoryResult.category results) ->
      List.length (filter CategoryResult.bottleneck (categories report)) = 1%nat).
Proof.
  pose proof (calculateAltitude_Some_nonempty _ _ _ Hreport) as Hne.
  destruct (calculateAltitude_report calculateNextLevel results Hne)
    as (report' & b & Hr & Hin & _ & Hb & Hcats & _).
  rewrite Hreport in Hr. injection Hr as <-.
  rewrite Hcats, Hb. cbn [CategoryResult.with_bottleneck CategoryResult.category
                          CategoryResult.bottleneck CategoryResult.maxUsers].
  split; [rewrite map_map; reflexivity|].
  split; [rewrite map_map; reflexivity|].
  split; [reflexivity|].
  split.
  - exists (CategoryResult.with_bottleneck b true). split; [|split; reflexivity].
    apply in_map_iff. exists b. split; [|exact Hin].
    cbn. rewrite Category_eqb_refl. reflexivity.
  - intros Hnd. rewrite filter_flag_length.
    apply (filter_same_key_once CategoryResult.category results b Hnd Hin).
Qed.

Lemma calculateAltitude_bottleneck_flags_witness :
  exists report,
    calculateAltitude (fun _ _ => tt) weak_security_results = Some report
    /\ map CategoryResult.bottleneck (categories report) = [true; false]
    /\ List.length (filter CategoryResult.bottleneck (categories report)) = 1%nat.
Proof.
  eexists. split; [reflexivity|]. split; [reflexivity|].
  refine (proj2 (proj2 (proj2 (proj2
            (calculateAltitude_bottleneck_flags
               (fun _ _ => tt) weak_security_results _ eq_refl)))) _).
  unfold weak_security_results. simpl. repeat constructor; simpl; intuition discriminate.
Defined.







(** ** More on [usersToAltitude] *)

(** X6: over the non-negative user counts the level never goes down as
    the count goes up. *)
Theorem usersToAltitude_monotone (users users' : Z)
        (Hnonneg : 0 <= users) (Hle : users <= users') :
  (level_index (Altitude.level (usersToAltitude users))
   <= level_index (Altitude.level (usersToAltitude users')))%nat.
Proof.
  unfold usersToAltitude.
  assert (users = 0 \/ 1 <= users < 10 \/ 10 <= users < 100
          \/ 100 <= users < 1000 \/ 1000 <= users < 10000
          \/ 10000 <= users < 100000 \/ 100000 <= users < 1000000
          \/ 1000000 <= users < 10000000 \/ 10000000 <= users < 100000000
          \/ 100000000 <= users < 1000000000 \/ 1000000000 <= users)
    as Hcases by lia.
  destruct Hcases as [H|[H|[H|[H|[H|[H|[H|[H|[H|[H|H]]]]]]]]]];
    split_leb; simpl; lia.
Qed.

Lemma usersToAltitude_monotone_witness :
  0 <= 999 /\ 999 <= 1000
  /\ (level_index (Altitude.level (usersToAltitude 999))
      <= level_index (Altitude.level (usersToAltitude 1000)))%nat.
Proof.
  split; [lia|]. split; [lia|].
  apply (usersToAltitude_monotone 999 1000); lia.
Defined.

(** X7: GROUNDED is reported for exactly zero users and never for a
    negative count, which lands in HANGAR; the unit is km exactly from
    1,000,000 users on, and the value is Infinity exactly from
    1,000,000,000 users on, where the level is VOYAGER. *)
Theorem usersToAltitude_edges (users : Z) :
  (Altitude.level (usersToAltitude users) = GROUNDED <-> users = 0)
  /\ (users < 0 -> Altitude.level (usersToAltitude users) = HANGAR)
  /\ (Altitude.unit (usersToAltitude users) = km <-> 1000000 <= users)
  /\ (Altitude.value (usersToAltitude users) = Infinity <-> 1000000000 <= users)
  /\ (Altitude.level (usersToAltitude users) = VOYAGER <-> 1000000000 <= users).
Proof.
  unfold usersToAltitude.
  repeat split; intros H; revert H; split_leb; simpl;
    intros; try discriminate; try reflexivity; try lia.
Qed.

Lemma usersToAltitude_edges_witness :
  -3 < 0 /\ Altitude.level (usersToAltitude (-3)) = HANGAR.
Proof.
  split; [lia|].
  apply (usersToAltitude_edges (-3)). lia.
Defined.

(** ** Raising scores and ceilings *)




(** ** More on the gap selection and the grouping *)

Lemma filter_none {A} (p : A -> bool) (l : list A) :
  (forall x, In x l -> p x = false) -> filter p l = [].
Proof.
  induction l as [|x l IH]; simpl; [reflexivity|].
  intros H. rewrite (H x (or_introl eq_refl)).
  apply IH. intros y Hy. apply H. right. exact Hy.
Qed.



Lemma Map_get_or_empty_gapsByCategory (l : list Gap.t) (k : Category) :
  Map_get_or_empty (gapsByCategory l) k = gapsOfCategory k l.
Proof.
  unfold Map_get_or_empty. rewrite gapsByCategory_get.
  destruct (gapsOfCategory k l); reflexivity.
Qed.

Lemma Map_set_push_perm (m : CategoryMap (list Gap.t)) (g : Gap.t) :
  Permutation (List.concat (map snd (groupStep m g)))
              (List.concat (map snd m) ++ [g])%list.
Proof.
  unfold groupStep, Map_get_or_empty.
  induction m as [|[k0 v0] m IH]; simpl.
  - apply Permutation_refl.
  - destruct (Category_eqb (Gap.category g) k0) eqn:E; simpl.
    + rewrite <- !app_assoc. apply Permutation_app_head.
      apply Permutation_app_comm.
    + rewrite <- app_assoc. apply Permutation_app_head. exact IH.
Qed.

Lemma Map_get_In {V} (m : CategoryMap V) (k : Category) (v : V) :
  NoDup (Map_keys m) -> In (k, v) m -> Map_get m k = Some v.
Proof.
  unfold Map_keys. induction m as [|[k0 v0] m IH]; simpl; [contradiction|].
  intros Hnd Hin. apply NoDup_cons_iff in Hnd. destruct Hnd as [Hnot Hnd].
  destruct Hin as [[= -> ->]|Hin].
  - rewrite Category_eqb_refl. reflexivity.
  - destruct (Category_eqb k k0) eqn:E.
    + apply Category_eqb_eq in E. subst k0. exfalso. apply Hnot.
      apply (in_map fst) in Hin. exact Hin.
    + apply IH; assumption.
Qed.

(** X10: the grouping loses and invents nothing: the groups together hold
    exactly the selected gaps, every group is non-empty and holds only
    gaps of its own category in selection order, and the group sizes add
    up to the number of selected gaps. *)
Theorem gapsByCategory_partition (selected : list Gap.t) :
  Permutation (List.concat (map snd (gapsByCategory selected))) selected
  /\ (forall k gs,
        In (k, gs) (gapsByCategory selected) ->
        gs <> [] /\ gs = gapsOfCategory k selected
        /\ Forall (fun g => Gap.category g = k) gs)
  /\ list_sum (map (fun group => List.length (snd group))
                   (gapsByCategory selected))
     = List.length selected.
Proof.
  assert (Permutation (List.concat (map snd (gapsByCategory selected))) selected)
    as Hperm.
  { induction selected as [|g l IH] using rev_ind; [apply Permutation_refl|].
    rewrite gapsByCategory_snoc.
    eapply Permutation_trans; [apply Map_set_push_perm|].
    apply Permutation_app_tail. exact IH. }
  split; [exact Hperm|]. split.
  - intros k gs Hin.
    pose proof (Map_get_In _ _ _ (gapsByCategory_keys_NoDup selected) Hin) as Hget.
    rewrite gapsByCategory_get in Hget.
    unfold nonEmptyOrNone in Hget.
    destruct (gapsOfCategory k selected) as [|g gs'] eqn:E; [discriminate|].
    injection Hget as <-. split; [discriminate|]. split; [reflexivity|].
    rewrite <- E. unfold gapsOfCategory. apply Forall_forall.
    intros x Hx. apply filter_In in Hx. destruct Hx as [_ Hx].
    apply Category_eqb_eq in Hx. congruence.
  - rewrite <- (Permutation_length Hperm), length_concat, map_map. reflexivity.
Qed.

Section GenerateFacts.
Context {RepoContext GeneratedFile : Type}.
Variable generateSecurityFixes : RepoContext -> list Gap.t -> list GeneratedFile.
Variable generateTests : RepoContext -> list Gap.t -> list GeneratedFile.
Variable generateCICD : RepoContext -> list Gap.t -> list GeneratedFile.
Variable generateReadme : RepoContext -> list GeneratedFile.

Lemma generate_files (ctx : RepoContext) (analysis : CompletenessAnalysis.t)
      (body : GenerateRequest.t) :
  generatedFiles
    (generate generateSecurityFixes generateTests generateCICD generateReadme
              ctx analysis body)
  = ((match gapsOfCategory security (targetGaps analysis body) with
      | [] => []
      | gs => generateSecurityFixes ctx gs
      end)
     ++ (match gapsOfCategory testing (targetGaps analysis body) with
         | [] => []
         | gs => generateTests ctx gs
         end)
     ++ (match gapsOfCategory deployment (targetGaps analysis body) with
         | [] => []
         | gs => generateCICD ctx gs
         end)
     ++ (if existsb (fun g => String.eqb (Gap.id g) "vc-no-readme")
                    (gapsOfCategory versionControl (targetGaps analysis body))
         then generateReadme ctx else []))%list.
Proof.
  unfold generate. cbn [generatedFiles].
  rewrite !Map_get_or_empty_gapsByCategory.
  destruct (gapsOfCategory security (targetGaps analysis body)) as [|s ss];
    destruct (gapsOfCategory testing (targetGaps analysis body)) as [|t ts];
    destruct (gapsOfCategory deployment (targetGaps analysis body)) as [|d ds];
    destruct (existsb _ (gapsOfCategory versionControl (targetGaps analysis body)));
    cbn [List.length Nat.ltb Nat.leb app];
    rewrite ?app_nil_r, <- ?app_assoc; reflexivity.
Qed.
End GenerateFacts.

(** X11: the generators are run in the fixed order security, testing,
    deployment, README; each of the first three receives exactly the
    selected gaps of its category, in selection order, and is skipped
    when there are none; the README generator runs exactly when a
    selected version-control gap has the id "vc-no-readme".  The summary
    counts the selected gaps and the generated files. *)
Theorem generate_dispatch_by_category
        {RepoContext GeneratedFile : Type}
        (generateSecurityFixes generateTests generateCICD :
           RepoContext -> list Gap.t -> list GeneratedFile)
        (generateReadme : RepoContext -> list GeneratedFile)
        (ctx : RepoContext) (analysis : CompletenessAnalysis.t)
        (body : GenerateRequest.t) :
  let response :=
    generate generateSecurityFixes generateTests generateCICD generateReadme
             ctx analysis body in
  generatedFiles response
  = ((match gapsOfCategory security (targetGaps analysis body) with
      | [] => []
      | gs => generateSecurityFixes ctx gs
      end)
     ++ (match gapsOfCategory testing (targetGaps analysis body) with
         | [] => []
         | gs => generateTests ctx gs
         end)
     ++ (match gapsOfCategory deployment (targetGaps analysis body) with
         | [] => []
         | gs => generateCICD ctx gs
         end)
     ++ (if existsb (fun g => String.eqb (Gap.id g) "vc-no-readme")
                    (gapsOfCategory versionControl (targetGaps analysis body))
         then generateReadme ctx else []))%list
  /\ success response = true
  /\ summary_totalGaps (summary response)
     = List.length (targetGaps analysis body)
  /\ summary_filesGenerated (summary response)
     = List.length (generatedFiles response)
  /\ summary_categories (summary response)
     = Map_keys (gapsByCategory (targetGaps analysis body)).
Proof.
  cbv zeta. split; [apply generate_files|]. repeat split.
Qed.

(** X12: gaps of the eight categories without a generator, and
    version-control gaps other than "vc-no-readme", are counted in the
    summary but produce no file: when only such gaps are selected the
    answer is a success with an empty file list. *)
Theorem generate_without_generator
        {RepoContext GeneratedFile : Type}
        (generateSecurityFixes generateTests generateCICD :
           RepoContext -> list Gap.t -> list GeneratedFile)
        (generateReadme : RepoContext -> list GeneratedFile)
        (ctx : RepoContext) (analysis : CompletenessAnalysis.t)
        (body : GenerateRequest.t)
        (Hunsupported :
           Forall (fun g =>
                     Gap.category g <> security
                     /\ Gap.category g <> testing
                     /\ Gap.category g <> deployment
                     /\ (Gap.category g = versionControl ->
                         Gap.id g <> "vc-no-readme"%string))
                  (targetGaps analysis body)) :
  let response :=
    generate generateSecurityFixes generateTests generateCICD generateReadme
             ctx analysis body in
  generatedFiles response = []
  /\ success response = true
  /\ summary_filesGenerated (summary response) = 0%nat
  /\ summary_totalGaps (summary response)
     = List.length (targetGaps analysis body).
Proof.
  cbv zeta.
  assert (generatedFiles
            (generate generateSecurityFixes generateTests generateCICD
                      generateReadme ctx analysis body) = []) as E.
  { rewrite generate_files. rewrite Forall_forall in Hunsupported.
    assert (forall k,
               (forall g, In g (targetGaps analysis body) -> Gap.category g <> k) ->
               gapsOfCategory k (targetGaps analysis body) = []) as Hempty.
    { intros k Hk. apply filter_none. intros g Hg.
      destruct (Category_eqb k (Gap.category g)) eqn:Ek; [|reflexivity].
      apply Category_eqb_eq in Ek. exfalso. apply (Hk g Hg). congruence. }
    rewrite (Hempty security), (Hempty testing), (Hempty deployment);
      try (intros g Hg; apply (Hunsupported g Hg)).
    assert (existsb (fun g => String.eqb (Gap.id g) "vc-no-readme")
                    (gapsOfCategory versionControl (targetGaps analysis body))
            = false) as ->; [|reflexivity].
    destruct (existsb _ _) eqn:Ex; [|reflexivity].
    apply existsb_exists in Ex. destruct Ex as (g & Hg & Hid).
    apply filter_In in Hg. destruct Hg as [Hg Hcat].
    apply Category_eqb_eq in Hcat. apply String.eqb_eq in Hid.
    exfalso. apply (proj2 (proj2 (proj2 (Hunsupported g Hg)))); congruence. }
  split; [exact E|]. split; [reflexivity|]. split; [|reflexivity].
  unfold generate in *. cbn [summary summary_filesGenerated generatedFiles] in *.
  rewrite E. reflexivity.
Qed.

Lemma generate_without_generator_witness :
  targetGaps ios_order_analysis
    (GenerateRequest.mk "https://github.com/test/app" None
                        (Some [stateManagement]) None None)
  = [stateGap]
  /\ generatedFiles
       (generate (fun (_ : unit) gs => map Gap.id gs) (fun _ gs => map Gap.id gs)
                 (fun _ gs => map Gap.id gs) (fun _ => ["README.md"%string])
                 tt ios_order_analysis
                 (GenerateRequest.mk "https://github.com/test/app" None
                                     (Some [stateManagement]) None None))
     = [].
Proof.
  split; [reflexivity|].
  apply (generate_without_generator
           (fun (_ : unit) gs => map Gap.id gs) (fun _ gs => map Gap.id gs)
           (fun _ gs => map Gap.id gs) (fun _ => ["README.md"%string])
           tt ios_order_analysis).
  repeat constructor; simpl; discriminate.
Defined.

(** ** [POST] of /api/generate *)

Section PostFacts.
Context {Json GeneratedFile : Type}.
Variable JSON_parse : string -> Exc Json.
Variable toLowerCase : string -> string.
Variable analyze : string -> list RepoFile.t -> Exc CompletenessAnalysis.t.
Variable generateSecurityFixes :
  RepoContext.t Json -> list Gap.t -> Exc (list GeneratedFile).
Variable generateTests :
  RepoContext.t Json -> list Gap.t -> Exc (list GeneratedFile).
Variable generateCICD :
  RepoContext.t Json -> list Gap.t -> Exc (list GeneratedFile).
Variable generateReadme : RepoContext.t Json -> Exc (list GeneratedFile).

Local Abbreviation post fetch :=
  (POST JSON_parse toLowerCase fetch analyze generateSecurityFixes
        generateTests generateCICD generateReadme).
Local Abbreviation post_try fetch :=
  (POST_try JSON_parse toLowerCase fetch analyze generateSecurityFixes
            generateTests generateCICD generateReadme).

Ltac step_binds :=
  repeat match goal with
         | |- context [exc_bind ?m _] =>
             let E := fresh "E" in
             destruct m eqn:E; cbn [exc_bind]
         end.

Lemma POST_try_shape (fetch : string -> Exc (list RepoFile.t))
      (body : GenerateRequest.t) :
  GenerateRequest.repoUrl body <> ""%string ->
  (exists message, post_try fetch body = inl message)
  \/ (exists response, post_try fetch body = inr (Json200 response)).
Proof.
  intros Hurl. unfold POST_try.
  destruct (String.eqb_spec (GenerateRequest.repoUrl body) "") as [E|_];
    [contradiction|].
  step_binds; eauto.
Qed.

(** X13: [POST] answers 200, 400 or 500; it answers 400 exactly when
    [repoUrl] is empty, with the message "repoUrl is required" and whatever
    the collaborators would do. *)
Theorem POST_status (fetch : string -> Exc (list RepoFile.t))
        (body : GenerateRequest.t) :
  (postStatus (post fetch body) = 200
   \/ postStatus (post fetch body) = 400
   \/ postStatus (post fetch body) = 500)
  /\ (postStatus (post fetch body) = 400
      <-> GenerateRequest.repoUrl body = ""%string)
  /\ (GenerateRequest.repoUrl body = ""%string ->
      post fetch body = JsonError 400 "repoUrl is required").
Proof.
  assert (GenerateRequest.repoUrl body = ""%string ->
          post fetch body = JsonError 400 "repoUrl is required") as H400.
  { intros E. unfold POST, POST_try. rewrite E. reflexivity. }
  destruct (String.eqb_spec (GenerateRequest.repoUrl body) "") as [E|Hne].
  - rewrite (H400 E). simpl. repeat split; auto.
  - unfold POST.
    destruct (POST_try_shape fetch body Hne) as [[m ->]|[r ->]]; simpl.
    + repeat split; auto; try (intros; congruence); discriminate.
    + repeat split; auto; try (intros; congruence); discriminate.
Qed.

(** X14: files sent with the request are used as they are: with a
    non-empty [files] array the answer does not depend on the file
    retrieval at all; without one (missing or empty) a failing retrieval
    makes the answer a 500 that carries the retrieval's message. *)
Theorem POST_fetches_only_without_files
        (fetch fetch' : string -> Exc (list RepoFile.t))
        (body : GenerateRequest.t) :
  (forall f fs,
      GenerateRequest.files body = Some (f :: fs) ->
      post fetch body = post fetch' body)
  /\ (forall message,
        GenerateRequest.repoUrl body <> ""%string ->
        absentList (GenerateRequest.files body) ->
        fetch (GenerateRequest.repoUrl body) = inl message ->
        post fetch body = JsonError 500 message).
Proof.
  split.
  - intros f fs Hfiles. unfold POST, POST_try. rewrite Hfiles. reflexivity.
  - intros message Hurl Hfiles Hfetch. unfold POST, POST_try.
    destruct (String.eqb_spec (GenerateRequest.repoUrl body) "") as [E|_];
      [contradiction|].
    destruct Hfiles as [-> | ->]; rewrite Hfetch; reflexivity.
Qed.

End PostFacts.

Lemma POST_status_witness :
  postStatus
    (PostDoubles.post PostDoubles.failingFetch
       (GenerateRequest.mk "" None None None None))
  = 400.
Proof.
  apply (proj1 (proj2 (POST_status
                         PostDoubles.parseJson PostDoubles.lowerCase
                         PostDoubles.analyze PostDoubles.fixPerGap
                         PostDoubles.fixPerGap PostDoubles.fixPerGap
                         PostDoubles.readme PostDoubles.failingFetch
                         (GenerateRequest.mk "" None None None None)))).
  reflexivity.
Defined.

Lemma POST_fetches_only_without_files_witness :
  PostDoubles.post PostDoubles.failingFetch
    (GenerateRequest.mk "https://github.com/test/repo" (Some []) None None None)
  = JsonError 500 "Invalid GitHub URL"
  /\ PostDoubles.post PostDoubles.failingFetch
       (GenerateRequest.mk "https://github.com/test/repo"
                           (Some [PostDoubles.pageFile]) None None None)
     = PostDoubles.post (fun _ => inr [])
         (GenerateRequest.mk "https://github.com/test/repo"
                             (Some [PostDoubles.pageFile]) None None None).
Proof.
  split.
  - apply (proj2 (POST_fetches_only_without_files
                    PostDoubles.parseJson PostDoubles.lowerCase
                    PostDoubles.analyze PostDoubles.fixPerGap
                    PostDoubles.fixPerGap PostDoubles.fixPerGap
                    PostDoubles.readme PostDoubles.failingFetch
                    PostDoubles.failingFetch _)).
    + discriminate.
    + right. reflexivity.
    + reflexivity.
  - apply (proj1 (POST_fetches_only_without_files
                    PostDoubles.parseJson PostDoubles.lowerCase
                    PostDoubles.analyze PostDoubles.fixPerGap
                    PostDoubles.fixPerGap PostDoubles.fixPerGap
                    PostDoubles.readme PostDoubles.failingFetch
                    (fun _ => inr []) _)
                 PostDoubles.pageFile []).
    reflexivity.
Defined.


(** X16: when nothing throws, [POST] answers 200 with the response that
    [generate] computes: for a non-empty [repoUrl], files that are
    supplied or retrieved, an analysis and a context that are built, and
    generators that return, the body is the one obtained by selecting,
    grouping and dispatching the gaps. *)
Theorem POST_success_is_generate
        {Json GeneratedFile : Type}
        (JSON_parse : string -> Exc Json) (toLowerCase : string -> string)
        (fetch : string -> Exc (list RepoFile.t))
        (analyze : string -> list RepoFile.t -> Exc CompletenessAnalysis.t)
        (generateSecurityFixes generateTests generateCICD :
           RepoContext.t Json -> list Gap.t -> list GeneratedFile)
        (generateReadme : RepoContext.t Json -> list GeneratedFile)
        (body : GenerateRequest.t)
        (repoFiles : list RepoFile.t) (analysis : CompletenessAnalysis.t)
        (ctx : RepoContext.t Json)
        (Hurl : GenerateRequest.repoUrl body <> ""%string)
        (Hfiles : match GenerateRequest.files body with
                  | Some ((_ :: _) as files) => inr files
                  | _ => fetch (GenerateRequest.repoUrl body)
                  end = inr repoFiles)
        (Hanalysis : analyze (GenerateRequest.repoUrl body) repoFiles
                     = inr analysis)
        (Hctx : buildContext JSON_parse toLowerCase repoFiles analysis = inr ctx) :
  POST JSON_parse toLowerCase fetch analyze
       (fun c gs => inr (generateSecurityFixes c gs))
       (fun c gs => inr (generateTests c gs))
       (fun c gs => inr (generateCICD c gs))
       (fun c => inr (generateReadme c))
       body
  = Json200 (generate generateSecurityFixes generateTests generateCICD
                      generateReadme ctx analysis body).
Proof.
  unfold POST, POST_try.
  destruct (String.eqb_spec (GenerateRequest.repoUrl body) "") as [E|_];
    [contradiction|].
  rewrite Hfiles. cbn [exc_bind]. rewrite Hanalysis. cbn [exc_bind].
  rewrite Hctx. cbn [exc_bind]. unfold generate.
  destruct (0 <? List.length
                   (Map_get_or_empty (gapsByCategory (targetGaps analysis body))
                                     security))%nat;
    destruct (0 <? List.length
                     (Map_get_or_empty (gapsByCategory (targetGaps analysis body))
                                       testing))%nat;
    destruct (0 <? List.length
                     (Map_get_or_empty (gapsByCategory (targetGaps analysis body))
                                       deployment))%nat;
    destruct (existsb (fun g => String.eqb (Gap.id g) "vc-no-readme")
                      (Map_get_or_empty
                         (gapsByCategory (targetGaps analysis body))
                         versionControl));
    cbn [exc_bind app]; rewrite ?app_nil_r, ?app_assoc; reflexivity.
Qed.

Lemma POST_success_is_generate_witness :
  POST PostDoubles.parseJson PostDoubles.lowerCase PostDoubles.failingFetch
       PostDoubles.analyze
       (fun c gs => inr (map Gap.id gs)) (fun c gs => inr (map Gap.id gs))
       (fun c gs => inr (map Gap.id gs)) (fun c => inr ["README.md"%string])
       (GenerateRequest.mk "https://github.com/test/repo"
                           (Some [PostDoubles.pageFile]) None None None)
  = Json200
      (mkGenerateResponse true ["security-no-headers"; "deploy-no-ci"]%string
         (mkGenerateSummary 2 2 [security; deployment])).
Proof.
  rewrite (POST_success_is_generate
             PostDoubles.parseJson PostDoubles.lowerCase PostDoubles.failingFetch
             PostDoubles.analyze
             (fun c gs => map Gap.id gs) (fun c gs => map Gap.id gs)
             (fun c gs => map Gap.id gs) (fun c => ["README.md"%string])
             (GenerateRequest.mk "https://github.com/test/repo"
                                 (Some [PostDoubles.pageFile]) None None None)
             [PostDoubles.pageFile] sample_analysis
             (RepoContext.mk string [PostDoubles.pageFile]
                             AnalyzerDoubles.webStack None None)).
  - reflexivity.
  - discriminate.
  - reflexivity.
  - reflexivity.
  - reflexivity.
Defined.

(** ** [fetchRepoFiles] *)

Lemma filter_Boolean_app {A} (l1 l2 : list (option A)) :
  filter_Boolean (l1 ++ l2)%list
  = (filter_Boolean l1 ++ filter_Boolean l2)%list.
Proof.
  induction l1 as [|[a|] l1 IH]; simpl; [reflexivity| |exact IH].
  rewrite IH. reflexivity.
Qed.

Lemma filter_Boolean_In {A B} (f : A -> option B) (l : list A) (b : B) :
  In b (filter_Boolean (map f l)) <-> exists a, In a l /\ f a = Some b.
Proof.
  induction l as [|x l IH]; simpl.
  - split; [contradiction|]. intros (a & [] & _).
  - destruct (f x) as [y|] eqn:E; simpl; rewrite IH; split.
    + intros [<-|(a & Ha & Hf)]; [exists x; auto|exists a; auto].
    + intros (a & [<-|Ha] & Hf); [left; congruence|right; exists a; auto].
    + intros (a & Ha & Hf). exists a; auto.
    + intros (a & [<-|Ha] & Hf); [congruence|exists a; auto].
Qed.

Lemma In_firstn_In {A} (n : nat) (l : list A) (x : A) :
  In x (firstn n l) -> In x l.
Proof.
  intros H. rewrite <- (firstn_skipn n l). apply in_or_app. left. exact H.
Qed.

Lemma filter_Boolean_length {A} (l : list (option A)) :
  (List.length (filter_Boolean l) <= List.length l)%nat.
Proof. induction l as [|[a|] l IH]; simpl; lia. Qed.

Section FetchFacts.
Variable matchRepoUrl : string -> option (string * string).
Variable fetchTree : string -> string -> Exc TreeResponse.
Variable fetchContent : string -> string -> string -> option string.

(** With enough iterations the batches of ten add up to one pass over the
    items from index [i] on. *)
Lemma fetchBatches_all (fuel : nat) (owner cleanRepo : string)
      (relevant : list TreeItem.t) (i : nat) (files : list RepoFile.t) :
  (List.length relevant < fuel + i)%nat ->
  fetchBatches fetchContent fuel owner cleanRepo relevant i files
  = (files ++ filter_Boolean
                (map (fetchFile fetchContent owner cleanRepo)
                     (skipn i relevant)))%list.
Proof.
  revert i files. induction fuel as [|fuel IH]; intros i files Hfuel; simpl.
  - rewrite skipn_all2 by lia. simpl. rewrite app_nil_r. reflexivity.
  - destruct (Nat.ltb_spec i (List.length relevant)) as [Hlt|Hge].
    + rewrite IH by lia. rewrite <- app_assoc. f_equal.
      assert (skipn i relevant
              = (Array_slice relevant i (i + 10)
                 ++ skipn (i + 10) relevant)%list) as E.
      { unfold Array_slice. replace (i + 10 - i)%nat with 10%nat by lia.
        replace (i + 10)%nat with (10 + i)%nat by lia.
        rewrite <- skipn_skipn. symmetry. apply firstn_skipn. }
      rewrite E, map_app, filter_Boolean_app. reflexivity.
    + rewrite skipn_all2 by lia. simpl. rewrite app_nil_r. reflexivity.
Qed.

(** X17: what [fetchRepoFiles] returns.  The batches of ten are invisible
    in the result: it is one pass, in tree order, over the first 200
    relevant items, keeping the files whose content could be fetched.  So
    at most 200 files come back, each from a blob of less than 100,000
    bytes whose path contains none of node_modules, .git/, dist/, build/
    or .next/. *)
Theorem fetchRepoFiles_result (repoUrl : string) (files : list RepoFile.t)
        (Hfiles : fetchRepoFiles matchRepoUrl fetchTree fetchContent repoUrl
                  = inr files) :
  exists owner repo tree,
    matchRepoUrl repoUrl = Some (owner, repo)
    /\ fetchTree owner (stripGitSuffix repo) = inr (TreeOk tree)
    /\ files
       = filter_Boolean
           (map (fetchFile fetchContent owner (stripGitSuffix repo))
                (firstn 200 (filter isRelevant tree)))
    /\ (List.length files <= 200)%nat
    /\ forall f,
         In f files ->
         exists item,
           In item tree
           /\ RepoFile.path f = TreeItem.path item
           /\ fetchContent owner (stripGitSuffix repo) (TreeItem.path item)
              = Some (RepoFile.content f)
           /\ TreeItem.type item = "blob"%string
           /\ size_or (TreeItem.size item) 0 < 100000
           /\ String_includes (RepoFile.path f) "node_modules" = false
           /\ String_includes (RepoFile.path f) ".git/" = false
           /\ String_includes (RepoFile.path f) "dist/" = false
           /\ String_includes (RepoFile.path f) "build/" = false
           /\ String_includes (RepoFile.path f) ".next/" = false.
Proof.
  unfold fetchRepoFiles in Hfiles.
  destruct (matchRepoUrl repoUrl) as [[owner repo]|] eqn:Hmatch; [|discriminate].
  destruct (fetchTree owner (stripGitSuffix repo)) as [e|[tree|status]] eqn:Htree;
    cbn [exc_bind] in Hfiles; try discriminate.
  rewrite fetchBatches_all in Hfiles by lia.
  cbn [app skipn] in Hfiles. unfold relevantFiles in Hfiles.
  assert (files
          = filter_Boolean
              (map (fetchFile fetchContent owner (stripGitSuffix repo))
                   (firstn 200 (filter isRelevant tree)))) as -> by congruence.
  clear Hfiles.
  exists owner, repo, tree.
  split; [reflexivity|]. split; [exact Htree|]. split; [reflexivity|]. split.
  - eapply Nat.le_trans; [apply filter_Boolean_length|].
    rewrite length_map. apply firstn_le_length.
  - intros f Hf. apply filter_Boolean_In in Hf. destruct Hf as (item & Hitem & Hfetch).
    apply In_firstn_In in Hitem.
    apply filter_In in Hitem. destruct Hitem as [Hin Hrel].
    unfold fetchFile in Hfetch.
    destruct (fetchContent owner (stripGitSuffix repo) (TreeItem.path item))
      as [content|] eqn:Hc; [|discriminate].
    injection Hfetch as <-. cbn [RepoFile.path RepoFile.content].
    unfold isRelevant in Hrel.
    repeat (apply andb_prop in Hrel; destruct Hrel as [Hrel ?]).
    exists item.
    repeat match goal with
           | H : negb _ = true |- _ => apply negb_true_iff in H
           end.
    apply String.eqb_eq in Hrel.
    repeat split; try assumption. apply Z.ltb_lt. assumption.
Qed.

(** X18: the only ways [fetchRepoFiles] fails are a URL that does not
    match, a tree request that rejects, and a tree answer that is not ok;
    a file whose content cannot be fetched never fails the call. *)
Theorem fetchRepoFiles_errors (repoUrl message : string) :
  fetchRepoFiles matchRepoUrl fetchTree fetchContent repoUrl = inl message
  <-> (matchRepoUrl repoUrl = None /\ message = "Invalid GitHub URL"%string)
      \/ (exists owner repo,
             matchRepoUrl repoUrl = Some (owner, repo)
             /\ fetchTree owner (stripGitSuffix repo) = inl message)
      \/ (exists owner repo status,
             matchRepoUrl repoUrl = Some (owner, repo)
             /\ fetchTree owner (stripGitSuffix repo) = inr (TreeNotOk status)
             /\ message = ("Failed to fetch repo: " ++ string_of_Z status)%string).
Proof.
  unfold fetchRepoFiles.
  split.
  - intros H.
    destruct (matchRepoUrl repoUrl) as [[owner repo]|] eqn:Hmatch.
    + cbv beta iota zeta in H.
      destruct (fetchTree owner (stripGitSuffix repo)) as [e|[tree|status]]
        eqn:Htree; cbn [exc_bind] in H.
      * right. left. exists owner, repo. split; [reflexivity|congruence].
      * discriminate.
      * right. right. exists owner, repo, status.
        split; [reflexivity|]. split; [exact Htree|congruence].
    + left. split; [reflexivity|congruence].
  - intros [[Hm ->]|[(o & r & Hm & Ht)|(o & r & st & Hm & Ht & ->)]];
      rewrite Hm; cbv beta iota zeta; rewrite ?Ht; reflexivity.
Qed.
End FetchFacts.

Lemma fetchRepoFiles_result_witness :
  fetchRepoFiles FetchDoubles.matchUrl FetchDoubles.fetchTree
                 FetchDoubles.fetchContent "https://github.com/test/repo.git"
  = inr [RepoFile.mk "src/index.ts" "export {}" 120]
  /\ exists owner repo tree,
       FetchDoubles.matchUrl "https://github.com/test/repo.git"
       = Some (owner, repo)
       /\ FetchDoubles.fetchTree owner (stripGitSuffix repo) = inr (TreeOk tree).
Proof.
  assert (fetchRepoFiles FetchDoubles.matchUrl FetchDoubles.fetchTree
                         FetchDoubles.fetchContent
                         "https://github.com/test/repo.git"
          = inr [RepoFile.mk "src/index.ts" "export {}" 120]) as H
      by reflexivity.
  split; [exact H|].
  destruct (fetchRepoFiles_result _ _ _ _ _ H)
    as (owner & repo & tree & Hm & Ht & _).
  exists owner, repo, tree. split; assumption.
Defined.

Lemma fetchRepoFiles_errors_witness :
  fetchRepoFiles FetchDoubles.matchUrl FetchDoubles.fetchTree
                 FetchDoubles.fetchContent "https://example.com/test/repo"
  = inl "Invalid GitHub URL"%string.
Proof.
  apply (proj2 (fetchRepoFiles_errors
                  FetchDoubles.matchUrl FetchDoubles.fetchTree
                  FetchDoubles.fetchContent "https://example.com/test/repo"
                  "Invalid GitHub URL")).
  left. split; reflexivity.
Defined.

Lemma String_length_app (s1 s2 : string) :
  String.length (s1 ++ s2) = (String.length s1 + String.length s2)%nat.
Proof. induction s1 as [|c s1 IH]; simpl; [reflexivity|]. rewrite IH. reflexivity. Qed.

Lemma git_suffix_not_whole (c : ascii) (s : string) :
  String.eqb (String c (s ++ ".git")) ".git" = false.
Proof.
  destruct (String.eqb_spec (String c (s ++ ".git")) ".git") as [E|_];
    [|reflexivity].
  apply (f_equal String.length) in E. simpl in E.
  rewrite String_length_app in E. simpl in E. lia.
Qed.

(** X19: removing the ".git" suffix of the repo name undoes appending it,
    removes at most one suffix, and leaves every other name unchanged: the
    result is the name itself or the name without its final ".git". *)
Theorem stripGitSuffix_spec (repo : string) :
  stripGitSuffix (repo ++ ".git") = repo
  /\ (stripGitSuffix repo = repo
      \/ repo = (stripGitSuffix repo ++ ".git")%string).
Proof.
  split.
  - induction repo as [|c s IH]; [reflexivity|].
    cbn [append stripGitSuffix]. rewrite git_suffix_not_whole, IH. reflexivity.
  - induction repo as [|c s IH]; [left; reflexivity|].
    cbn [stripGitSuffix].
    destruct (String.eqb_spec (String c s) ".git") as [E|_].
    + right. exact E.
    + destruct IH as [IH|IH].
      * left. rewrite IH. reflexivity.
      * right. cbn [append]. rewrite <- IH. reflexivity.
Qed.

(** ** More on the rate limiter *)

(** X20: a request is rejected only on the database's word: [rateLimit]
    returns success = false exactly when the clean-up and the count both
    return and the count has reached the limit; every other course of the
    call, any thrown error included, lets the request through. *)
Theorem rateLimit_rejects_iff
        {DB Err : Type} (prisma : PrismaClient DB Err)
        (now : Z) (identifier : string) (limit : Z) (windowMs : Q) (db : DB) :
  RateLimitResult.success
    (fst (rateLimit prisma now identifier limit windowMs db)) = false
  <-> exists u db1 count db2,
        executeRaw_deleteBefore prisma
          (new_Date (inject_Z now - windowMs)) db = (inr u, db1)
        /\ rateLimit_count prisma identifier
             (new_Date (inject_Z now - windowMs)) db1 = (inr count, db2)
        /\ limit <= count.
Proof.
  unfold rateLimit, try_catch, rateLimit_try, bind, ret.
  destruct (executeRaw_deleteBefore prisma
              (new_Date (inject_Z now - windowMs)) db) as [[e|u] db1] eqn:Hd.
  - cbn. split; [discriminate|]. intros (? & ? & ? & ? & [=] & _).
  - destruct (rateLimit_count prisma identifier
                (new_Date (inject_Z now - windowMs)) db1)
      as [[e|count] db2] eqn:Hc.
    + cbn. split; [discriminate|].
      intros (? & ? & ? & ? & [= <- <-] & Hc' & _). congruence.
    + destruct (Z.geb_spec count limit) as [Hge|Hlt].
      * cbn. split; [|reflexivity]. intros _.
        exists u, db1, count, db2. repeat split; [assumption|lia].
      * destruct (rateLimit_create prisma identifier db2) as [[e|u'] db3];
          cbn; (split; [discriminate|]);
          intros (? & ? & c' & ? & [= <- <-] & Hc' & Hle);
          rewrite Hc in Hc'; injection Hc' as <- <-; lia.
Qed.

Lemma rateLimit_rejects_iff_witness :
  RateLimitResult.success
    (fst (rateLimit (TestDoubles.memoryPrisma 1700000000000) 1700000000000
                    "203.0.113.9" 1 DEFAULT_WINDOW_MS
                    [("203.0.113.9"%string, 1699999990000)]))
  = false.
Proof.
  apply (proj2 (rateLimit_rejects_iff
                  (TestDoubles.memoryPrisma 1700000000000) 1700000000000
                  "203.0.113.9" 1 DEFAULT_WINDOW_MS
                  [("203.0.113.9"%string, 1699999990000)])).
  exists tt, [("203.0.113.9"%string, 1699999990000)], 1,
         [("203.0.113.9"%string, 1699999990000)].
  repeat split. lia.
Defined.

(** X21: a rejected request is never recorded: when the count has
    reached the limit, the result and the database left behind are those
    after the count, whatever the insert operation would have done. *)
Theorem rateLimit_denied_never_inserts
        {DB Err : Type} (prisma : PrismaClient DB Err)
        (now : Z) (identifier : string) (limit : Z) (windowMs : Q)
        (db : DB) (u : unit) (db1 db2 : DB) (count : Z)
        (Hdelete : executeRaw_deleteBefore prisma
                     (new_Date (inject_Z now - windowMs)) db = (inr u, db1))
        (Hcount : rateLimit_count prisma identifier
                    (new_Date (inject_Z now - windowMs)) db1 = (inr count, db2))
        (Hlimit : limit <= count) :
  forall create' : string -> Prisma DB Err unit,
    rateLimit (mkPrismaClient (executeRaw_deleteBefore prisma)
                              (rateLimit_count prisma) create')
              now identifier limit windowMs db
    = (RateLimitResult.mk false (inject_Z now) 0, db2).
Proof.
  intros create'.
  unfold rateLimit, try_catch, rateLimit_try, bind, ret.
  cbn [executeRaw_deleteBefore rateLimit_count rateLimit_create].
  rewrite Hdelete, Hcount.
  destruct (Z.geb_spec count limit) as [_|Hlt]; [|lia].
  rewrite (window_end_is_now now windowMs). reflexivity.
Qed.

Lemma rateLimit_denied_never_inserts_witness :
  rateLimit (mkPrismaClient
               (executeRaw_deleteBefore (TestDoubles.memoryPrisma 1700000000000))
               (rateLimit_count (TestDoubles.memoryPrisma 1700000000000))
               (rateLimit_create TestDoubles.downPrisma))
            1700000000000 "203.0.113.9" 1 DEFAULT_WINDOW_MS
            [("203.0.113.9"%string, 1699999990000)]
  = (RateLimitResult.mk false (inject_Z 1700000000000) 0,
     [("203.0.113.9"%string, 1699999990000)]).
Proof.
  apply (rateLimit_denied_never_inserts
           (TestDoubles.memoryPrisma 1700000000000) 1700000000000
           "203.0.113.9" 1 DEFAULT_WINDOW_MS
           [("203.0.113.9"%string, 1699999990000)] tt
           [("203.0.113.9"%string, 1699999990000)]
           [("203.0.113.9"%string, 1699999990000)] 1).
  - reflexivity.
  - reflexivity.
  - lia.
Defined.

(** X22: whenever the database answers with a non-negative count, the
    remaining quota is never negative: an allowed request leaves
    limit - count - 1, which is below the limit, and a denied one leaves
    exactly 0. *)
Theorem rateLimit_remaining_bounds
        {DB Err : Type} (prisma : PrismaClient DB Err)
        (now : Z) (identifier : string) (limit : Z) (windowMs : Q)
        (db : DB) (count : Z) (db' : DB)
        (Hsucceeds :
           databaseSucceeds prisma now identifier limit windowMs db count db')
        (Hcount : 0 <= count) :
  0 <= RateLimitResult.remaining
         (fst (rateLimit prisma now identifier limit windowMs db))
  /\ (RateLimitResult.success
        (fst (rateLimit prisma now identifier limit windowMs db)) = true ->
      count < limit
      /\ RateLimitResult.remaining
           (fst (rateLimit prisma now identifier limit windowMs db))
         = limit - count - 1
      /\ RateLimitResult.remaining
           (fst (rateLimit prisma now identifier limit windowMs db)) < limit)
  /\ (RateLimitResult.success
        (fst (rateLimit prisma now identifier limit windowMs db)) = false ->
      limit <= count
      /\ RateLimitResult.remaining
           (fst (rateLimit prisma now identifier limit windowMs db)) = 0).
Proof.
  pose proof (rateLimit_try_succeeds _ _ _ _ _ _ _ _ Hsucceeds) as Htry.
  unfold rateLimit, try_catch. rewrite Htry.
  cbn [fst RateLimitResult.remaining RateLimitResult.success].
  destruct (Z.geb_spec count limit) as [Hge|Hlt]; cbn [negb].
  - split; [lia|]. split; [discriminate|]. intros _. split; [lia|reflexivity].
  - split; [lia|]. split; [|discriminate]. intros _. repeat split; lia.
Qed.

Lemma rateLimit_remaining_bounds_witness :
  0 <= RateLimitResult.remaining
         (fst (rateLimit (TestDoubles.memoryPrisma 1700000000000)
                         1700000000000 "203.0.113.9" 5 DEFAULT_WINDOW_MS [])).
Proof.
  apply (rateLimit_remaining_bounds
           (TestDoubles.memoryPrisma 1700000000000) 1700000000000
           "203.0.113.9" 5 DEFAULT_WINDOW_MS [] 0
           [("203.0.113.9"%string, 1700000000000)]).
  - apply (succeeds_allowed _ _ _ _ _ _ tt tt [] []); try reflexivity.
  - lia.
Defined.

(** ** The category tables of types.ts *)

(** X23: [CATEGORIES] lists each of the twelve categories exactly once;
    every platform's row of [PLATFORM_CATEGORIES] is a duplicate-free
    selection from it that contains testing, security and versionControl;
    and only web and monorepo have all twelve. *)
Theorem PLATFORM_CATEGORIES_rows (p : Platform.t) :
  NoDup CATEGORIES
  /\ (forall c, In c CATEGORIES)
  /\ List.length CATEGORIES = 12%nat
  /\ NoDup (PLATFORM_CATEGORIES p)
  /\ incl (PLATFORM_CATEGORIES p) CATEGORIES
  /\ In testing (PLATFORM_CATEGORIES p)
  /\ In security (PLATFORM_CATEGORIES p)
  /\ In versionControl (PLATFORM_CATEGORIES p)
  /\ (List.length (PLATFORM_CATEGORIES p) = 12%nat
      <-> p = Platform.web \/ p = Platform.monorepo).
Proof.
  assert (forall c, In c CATEGORIES) as Hall.
  { intros c. destruct c; simpl; tauto. }
  assert (forall l : list Category,
             StronglySorted (fun a b => a <> b) l -> NoDup l) as Hnd.
  { intros l. induction 1 as [|x l _ IH Hx]; constructor; [|exact IH].
    intros Hin. rewrite Forall_forall in Hx. apply (Hx x Hin). reflexivity. }
  split.
  { apply Hnd. unfold CATEGORIES. repeat constructor; discriminate. }
  split; [exact Hall|]. split; [reflexivity|].
  split.
  { apply Hnd. destruct p; simpl; repeat constructor; discriminate. }
  split; [intros c _; apply Hall|].
  split; [destruct p; simpl; tauto|].
  split; [destruct p; simpl; tauto|].
  split; [destruct p; simpl; tauto|].
  destruct p; simpl; split; intros H; try discriminate; auto;
    destruct H as [H|H]; discriminate.
Qed.

(** X24: every platform-specific override belongs to a category that
    applies to its platform, with one exception: the library override of
    deployment ("Publishing") names a category that the library row of
    [PLATFORM_CATEGORIES] does not contain.  web, backend and monorepo
    have no overrides, and an override never repeats the default label. *)
Theorem PLATFORM_OVERRIDES_applicability
        (p : Platform.t) (c : Category) (o : CategoryOverride.t)
        (Hoverride : PLATFORM_OVERRIDES p c = Some o) :
  (In c (PLATFORM_CATEGORIES p)
   \/ (p = Platform.library /\ c = deployment))
  /\ ~ In deployment (PLATFORM_CATEGORIES Platform.library)
  /\ (exists o', PLATFORM_OVERRIDES Platform.library deployment = Some o')
  /\ p <> Platform.web /\ p <> Platform.backend /\ p <> Platform.monorepo
  /\ CategoryOverride.label o <> CATEGORY_LABELS c.
Proof.
  split; [|split; [|split]].
  - destruct p, c; simpl in Hoverride; try discriminate; simpl; tauto.
  - simpl. intros [H|[H|[H|[]]]]; discriminate.
  - eexists. reflexivity.
  - destruct p, c; simpl in Hoverride; try discriminate;
      injection Hoverride as <-; repeat split; discriminate.
Qed.

Lemma PLATFORM_OVERRIDES_applicability_witness :
  In testing (PLATFORM_CATEGORIES Platform.ios)
  \/ (Platform.ios = Platform.library /\ testing = deployment).
Proof.
  apply (PLATFORM_OVERRIDES_applicability
           Platform.ios testing
           (CategoryOverride.mk "Testing (XCTest)"
              ["XCTest"; "Quick/Nimble"; "Fastlane scan"]%string)).
  reflexivity.
Defined.
